(** * sg_crawler: the zero-price listing crawler, embedded and verified

    A shallow embedding of [solar_crowler.py].  Python values are modelled
    as follows.

    - A [str] is the list of its Unicode code points ([list N]).
    - A [float] is an IEEE-754 binary64 value ([spec_float] of the
      standard library, precision 53, maximal exponent 1024).
    - [None] in an optional position is [None] of [option].
    - A [set] of links is a [gset]; a [dict] is an association list in
      insertion order.
    - Exceptions, printed lines, browser actions, SMTP traffic and the
      results file are threaded through a state-and-exception monad.

    [main] is modelled from the moment the browser has been started, in
    the environment left by [load_env_file].  Outside the embedding are
    the exhaustion of memory, failures of the operating system while
    a results file within reach is written or a line is printed, and
    failures of [driver.quit], [driver.execute_script] and
    [driver.find_elements].
    The height of a page is taken to stop growing after finitely many
    scrolls. *)

From Stdlib Require Import ZArith NArith List Bool Floats String Ascii Lia.
From stdpp Require Import base option list gmap pretty.

#[local] Set Warnings "-register-all,-clear-no-such-hyp,-inexact-float".

Abbreviation pystr := (list N).

(** ** Python built-ins used by the crawler *)

Module Py.

(** [py "abc"] is the Python string literal with ASCII characters only. *)
Definition py (s : string) : pystr :=
  List.map N_of_ascii (list_ascii_of_string s).

(** The euro sign, U+20AC. *)
Definition EURO : pystr := [8364%N].

Definition between (lo hi c : N) : bool := (lo <=? c)%N && (c <=? hi)%N.

(** [str.isspace] on one character: the whitespace of [str.strip()] and
    [str.split()] without arguments. *)
Definition is_space (c : N) : bool :=
  between 9 13 c || between 28 32 c || (c =? 133)%N || (c =? 160)%N
  || (c =? 5760)%N || between 8192 8202 c || (c =? 8232)%N
  || (c =? 8233)%N || (c =? 8239)%N || (c =? 8287)%N || (c =? 12288)%N.

(** Whitespace of the C locale, as the number parsers see it once the
    text has been brought to ASCII. *)
Definition is_ascii_space (c : N) : bool := between 9 13 c || (c =? 32)%N.

Definition is_ascii_digit (c : N) : bool := between 48 57 c.

(** Code points of the digit zero of every decimal-digit block (general
    category Nd, Unicode 14); the nine following code points are the
    digits one to nine of that block. *)
Definition digit_zeros : list N :=
  [ 0x30; 0x660; 0x6f0; 0x7c0; 0x966; 0x9e6; 0xa66; 0xae6; 0xb66; 0xbe6;
    0xc66; 0xce6; 0xd66; 0xde6; 0xe50; 0xed0; 0xf20; 0x1040; 0x1090;
    0x17e0; 0x1810; 0x1946; 0x19d0; 0x1a80; 0x1a90; 0x1b50; 0x1bb0;
    0x1c40; 0x1c50; 0xa620; 0xa8d0; 0xa900; 0xa9d0; 0xa9f0; 0xaa50;
    0xabf0; 0xff10; 0x104a0; 0x10d30; 0x11066; 0x110f0; 0x11136;
    0x111d0; 0x112f0; 0x11450; 0x114d0; 0x11650; 0x116c0; 0x11730;
    0x118e0; 0x11950; 0x11c50; 0x11d50; 0x11da0; 0x16a60; 0x16ac0;
    0x16b50; 0x1d7ce; 0x1d7d8; 0x1d7e2; 0x1d7ec; 0x1d7f6; 0x1e140;
    0x1e2f0; 0x1e950; 0x1fbf0 ]%N.

Definition to_decimal (c : N) : option N :=
  match List.find (fun z => between z (z + 9) c) digit_zeros with
  | Some z => Some (c - z)%N
  | None => None
  end.

(** *** [str.strip], [str.split], [str.replace] *)

Fixpoint lstrip_by (p : N -> bool) (s : pystr) : pystr :=
  match s with
  | c :: s' => if p c then lstrip_by p s' else s
  | [] => []
  end.

Definition strip_by (p : N -> bool) (s : pystr) : pystr :=
  rev (lstrip_by p (rev (lstrip_by p s))).

(** [s.strip()] *)
Definition strip (s : pystr) : pystr := strip_by is_space s.

(** [s.split()]: the maximal runs of non-whitespace characters.  [cur]
    is the run being read, in reverse. *)
Fixpoint split_from (cur : pystr) (s : pystr) : list pystr :=
  match s with
  | [] => match cur with [] => [] | _ => [rev cur] end
  | c :: s' =>
      if is_space c
      then match cur with
           | [] => split_from [] s'
           | _ => rev cur :: split_from [] s'
           end
      else split_from (c :: cur) s'
  end.

Definition split (s : pystr) : list pystr := split_from [] s.

Fixpoint starts_with (pre s : pystr) : bool :=
  match pre, s with
  | [], _ => true
  | p :: pre', c :: s' => (p =? c)%N && starts_with pre' s'
  | _ :: _, [] => false
  end.

(** [s.replace(old, new)] for a non-empty [old]: occurrences are found
    left to right and do not overlap.  [skip] counts the characters of
    a match still to be dropped. *)
Fixpoint replace_from (old new : pystr) (skip : nat) (s : pystr) : pystr :=
  match s with
  | [] => []
  | c :: s' =>
      match skip with
      | S k => replace_from old new k s'
      | O =>
          if starts_with old s
          then new ++ replace_from old new (length old - 1) s'
          else c :: replace_from old new 0 s'
      end
  end.

Definition replace (s old new : pystr) : pystr := replace_from old new 0 s.

(** *** Bringing a numeric string to ASCII

    Before parsing, [float] and [int] map every non-ASCII whitespace
    character to a space and every non-ASCII decimal digit to its ASCII
    digit; any other character from U+007F on becomes ['?'], which no
    number contains. *)
Definition to_ascii_char (c : N) : N :=
  if (c <? 127)%N then c
  else if is_space c then 32%N
  else match to_decimal c with
       | Some d => (48 + d)%N
       | None => 63%N
       end.

Definition to_ascii (s : pystr) : pystr := List.map to_ascii_char s.

(** Underscores in a numeric literal must stand between two digits;
    they are removed.  [prev] is the previous character (0 at the
    start). *)
Fixpoint without_underscores (prev : N) (s : pystr) : option pystr :=
  match s with
  | [] => if (prev =? 95)%N then None else Some []
  | c :: s' =>
      if (c =? 95)%N
      then if is_ascii_digit prev then without_underscores c s' else None
      else if (prev =? 95)%N && negb (is_ascii_digit c) then None
      else option_map (cons c) (without_underscores c s')
  end.

(** The leading ASCII digits of [s], as digit values, and the rest. *)
Fixpoint digits (s : pystr) : list N * pystr :=
  match s with
  | c :: s' =>
      if is_ascii_digit c
      then let '(ds, rest) := digits s' in ((c - 48)%N :: ds, rest)
      else ([], s)
  | [] => ([], [])
  end.

(** The number written by a list of decimal digits. *)
Definition of_digits (ds : list N) : Z :=
  fold_left (fun acc d => (10 * acc + Z.of_N d)%Z) ds 0%Z.

(** An optional sign: [true] for ['-']. *)
Definition sign (s : pystr) : bool * pystr :=
  match s with
  | 43%N :: s' => (false, s')
  | 45%N :: s' => (true, s')
  | _ => (false, s)
  end.

Definition lower (c : N) : N := if between 65 90 c then (c + 32)%N else c.

(** *** [float(s)] *)

(** The binary64 value nearest to [n / d] (ties to the even mantissa),
    for [0 <= n] and [0 < d], with the sign [neg]. *)
Definition nearest_double (neg : bool) (n d : Z) : spec_float :=
  if (n =? 0)%Z then S754_zero neg
  else
    let scaled (e : Z) : Z * Z :=
      if (0 <=? e)%Z then (n, d * 2 ^ e)%Z else (n * 2 ^ (- e), d)%Z in
    let e1 := (Z.log2 n - Z.log2 d - 52)%Z in
    let e2 :=
      let '(a, b) := scaled e1 in
      if (a / b <? 2 ^ 52)%Z then (e1 - 1)%Z else e1 in
    let e := Z.max e2 (-1074) in
    let '(a, b) := scaled e in
    let q := (a / b)%Z in
    let r := (a mod b)%Z in
    let q := if (b <? 2 * r)%Z || ((b =? 2 * r)%Z && Z.odd q)
             then (q + 1)%Z else q in
    let '(q, e) := if (q =? 2 ^ 53)%Z then (2 ^ 52, e + 1)%Z else (q, e) in
    if (q =? 0)%Z then S754_zero neg
    else if (1024 <? e + 53)%Z then S754_infinity neg
    else S754_finite neg (Z.to_pos q) e.

(** The value [mantissa * 10 ^ exp10] as a binary64. *)
Definition decimal_to_double (neg : bool) (mantissa exp10 : Z) : spec_float :=
  if (0 <=? exp10)%Z
  then nearest_double neg (mantissa * 10 ^ exp10) 1
  else nearest_double neg mantissa (10 ^ (- exp10)).

(** An optional exponent part: [Some (e, rest)], where a missing
    exponent is [e = 0]; [None] when [e] or [E] is not followed by
    digits. *)
Definition exponent (s : pystr) : option (Z * pystr) :=
  match s with
  | c :: s' =>
      if (lower c =? 101)%N
      then let '(neg, s1) := sign s' in
           match digits s1 with
           | ([], _) => None
           | (ds, rest) =>
               Some ((if neg then - of_digits ds else of_digits ds)%Z, rest)
           end
      else Some (0%Z, s)
  | [] => Some (0%Z, [])
  end.

(** A decimal number with optional fraction and exponent, which must
    take up all of [s]. *)
Definition float_number (neg : bool) (s : pystr) : option spec_float :=
  let '(ip, s1) := digits s in
  let '(fp, s2) :=
    match s1 with
    | 46%N :: s1' => digits s1'
    | _ => ([], s1)
    end in
  match ip ++ fp with
  | [] => None
  | ds =>
      match exponent s2 with
      | Some (e, []) =>
          Some (decimal_to_double neg (of_digits ds) (e - Z.of_nat (length fp)))
      | _ => None
      end
  end.

(** [float(s)] for a string [s]; [None] stands for [ValueError]. *)
Definition float (s : pystr) : option spec_float :=
  match without_underscores 0 (to_ascii s) with
  | None => None
  | Some s0 =>
      let s1 := strip_by is_ascii_space s0 in
      let '(neg, body) := sign s1 in
      let word := List.map lower body in
      if bool_decide (word = py "inf") then Some (S754_infinity neg)
      else if bool_decide (word = py "infinity") then Some (S754_infinity neg)
      else if bool_decide (word = py "nan") then Some S754_nan
      else float_number neg body
  end.

(** [x == 0.0] on floats: true for both zeros, false for NaN. *)
Definition is_zero (x : spec_float) : bool := SFeqb x (S754_zero false).

(** *** [int(s)] *)

(** The default limit on the number of digits of an integer literal. *)
Definition max_str_digits : nat := 4300.

(** [int(s)] for a string [s] in base ten; [None] stands for
    [ValueError]. *)
Definition int (s : pystr) : option Z :=
  match without_underscores 0 (to_ascii s) with
  | None => None
  | Some s0 =>
      let s1 := strip_by is_ascii_space s0 in
      let '(neg, body) := sign s1 in
      match digits body with
      | ([], _) => None
      | (ds, []) =>
          if Nat.ltb max_str_digits (length ds) then None
          else Some (if neg then - of_digits ds else of_digits ds)%Z
      | (_, _ :: _) => None
      end
  end.

End Py.

Import Py.

(** ** Data model *)

(** A value read from or written to the results file by the [json]
    module. *)
Inductive json : Type :=
| JNull
| JBool (b : bool)
| JInt (z : Z)
| JFloat (f : spec_float)
| JStr (s : pystr)
| JList (items : list json)
| JDict (fields : list (pystr * json)).

(** A [dict] with string keys, in insertion order. *)
Abbreviation dict := (list (pystr * json)).

(** [d.get(key, default)] *)
Fixpoint dict_get_or (d : dict) (key : pystr) (default : json) : json :=
  match d with
  | [] => default
  | (k, v) :: d' => if bool_decide (k = key) then v else dict_get_or d' key default
  end.

(** [d.get(key)]: [None] for a missing key. *)
Definition dict_get (d : dict) (key : pystr) : json := dict_get_or d key JNull.

(** The [Listing] dataclass.  [link] is what [get_attribute("href")]
    returned, which is [None] for an anchor without that attribute. *)
Record Listing : Type := {
  title : pystr;
  price_text : pystr;
  link : option pystr;
}.

(** A link as a JSON value. *)
Definition json_of_link (l : option pystr) : json :=
  match l with
  | Some s => JStr s
  | None => JNull
  end.

(** [Listing.to_dict] *)
Definition to_dict (self : Listing) : dict :=
  [ (py "title", JStr (title self));
    (py "price", JStr (price_text self));
    (py "link", json_of_link (link self)) ].

(** The state of [results.json], by what reading it does.  [Missing]:
    there is no such file ([exists()] is false).  [Unreadable]: the file
    is there but cannot be read or is not JSON ([read_text] or
    [json.loads] raises [OSError], [ValueError] or [JSONDecodeError]).
    [Stored data]: [json.loads] returns the document [data].
    [Inaccessible]: a directory on the path cannot be searched, so that
    [exists()] itself raises [OSError] (line 49).  [TooDeep]: the file
    holds JSON nested deeper than the parser recurses, about a thousand
    levels, so that [json.loads] raises [RecursionError]. *)
Inductive results_file : Type :=
| Missing
| Unreadable
| Stored (data : json)
| Inaccessible
| TooDeep.

(** The CSS selectors the extractor looks up inside a listing tile. *)
Inductive selector : Type :=
| price_for_filter      (* ".price_for_filter" *)
| wcpbc_price           (* ".wcpbc-price" *)
| totallink             (* "a.totallink" *)
| item_compare_title.   (* ".item-compare-title" *)

(** What the crawler reads from a sub-element: its rendered [text], its
    [textContent] property and its [href] attribute. *)
Record Element : Type := {
  text : pystr;
  text_content : pystr;
  href : option pystr;
}.

(** A listing tile ([li.listing-product]): for each selector, the first
    matching descendant, if any. *)
Definition Tile : Type := selector -> option Element.

(** How [driver.get(url)] ends. *)
Inductive load_outcome : Type :=
| Loaded
| LoadTimeout                       (* raises TimeoutException *)
| LoadFailed (msg : option pystr).  (* raises another WebDriverException *)

(** A page of the shop as the browser presents it.  [growth] lists the
    document heights measured after each successive scroll to the
    bottom; once it is used up the height no longer changes. *)
Record Page : Type := {
  load : load_outcome;
  listing_container : bool;        (* "ul.listing-products" is present *)
  initial_height : N;
  growth : list N;
  products : list Tile;            (* "ul.listing-products li.listing-product" *)
}.

(** The e-mail composed by the notifier: the count used in the subject
    and the first body line, and per entry the title, price and link
    that make up its line. *)
Record EmailMessage : Type := {
  count : nat;
  sender : pystr;
  recipient : pystr;
  body : list (json * json * json);
}.

(** The steps of an SMTP session. *)
Inductive smtp_step : Type :=
| Connect (host : pystr) (port : Z)
| StartTls
| Login (user password : pystr)
| SendMessage (msg : EmailMessage).

(** Lines written to standard output. *)
Inductive message : Type :=
| FailedToRead                               (* "Failed to read ... Rebuilding file." *)
| CredentialsMissing                         (* "EMAIL_USER or EMAIL_PASSWORD missing; ..." *)
| RecipientMissing                           (* "EMAIL_TO missing and default recipient empty; ..." *)
| NotificationSent (to : pystr)              (* "Notification email sent to ..." *)
| NotificationFailed                         (* "Failed to send notification email: ..." *)
| TimedOutLoading (url : pystr)              (* "Timed out loading ..., skipping." *)
| FailedToLoad (url : pystr) (msg : option pystr)  (* "Failed to load ...: ..." *)
| PageScanned (page : Z) (found : nat)       (* "Page ... scanned, zero-price items found: ..." *)
| UrlScanned (url : pystr) (found : nat)     (* "... scanned, zero-price items found: ..." *)
| NewEntries (entries : list dict)           (* json.dumps(new_entries, indent=2) *)
| NoNewListings.                             (* "No new zero-price listings discovered this run." *)

(** Everything the program does to the outside world, in order. *)
Inductive event : Type :=
| Print (m : message)
| Get (url : pystr)                  (* driver.get(url) *)
| WindowStop                         (* execute_script("window.stop();") *)
| WaitForContainer                   (* WebDriverWait(...).until(...) *)
| ScrollToBottom                     (* execute_script("window.scrollTo(...)") *)
| FindElements                       (* driver.find_elements(...) *)
| FindElement (sel : selector)       (* element.find_element(...) *)
| Smtp (step : smtp_step)
| WriteResults (entries : list dict) (* RESULTS_PATH.write_text(...) *)
| Quit.                              (* driver.quit() *)

(** The exceptions the program can meet.  [WebDriverException] stands
    for the exceptions of that class other than the two named before
    it. *)
Inductive exn : Type :=
| NoSuchElementException
| TimeoutException
| WebDriverException (msg : option pystr)
| ValueError
| MessageError     (* any exception of the email package *)
| OSError
| RecursionError.

(** The mutable world: the results file, the page the browser shows and
    the events so far (latest last). *)
Record world : Type := {
  file : results_file;
  browser : option Page;
  events : list event;
}.

(** ** The monad of state and exceptions *)

Inductive result (A : Type) : Type :=
| Ok (a : A)
| Raise (e : exn).
Arguments Ok {A} a.
Arguments Raise {A} e.

Definition M (A : Type) : Type := world -> result A * world.

Definition ret {A} (a : A) : M A := fun w => (Ok a, w).

Definition bind {A B} (m : M A) (k : A -> M B) : M B :=
  fun w =>
    match m w with
    | (Ok a, w') => k a w'
    | (Raise e, w') => (Raise e, w')
    end.

Declare Scope py_scope.
Delimit Scope py_scope with py.
Notation "x <- m ;; k" := (bind m (fun x => k))
  (at level 100, m at next level, right associativity) : py_scope.
Notation "m ;; k" := (bind m (fun _ => k))
  (at level 100, right associativity) : py_scope.
Open Scope py_scope.

(** [raise e] *)
Definition raise {A} (e : exn) : M A := fun w => (Raise e, w).

(** [try: m  except ...: ...], where [handler e] is [Some h] when an
    [except] clause matches [e]. *)
Definition try_except {A} (m : M A) (handler : exn -> option (M A)) : M A :=
  fun w =>
    match m w with
    | (Ok a, w') => (Ok a, w')
    | (Raise e, w') =>
        match handler e with
        | Some h => h w'
        | None => (Raise e, w')
        end
    end.

(** [try: m  finally: cleanup] *)
Definition try_finally {A} (m : M A) (cleanup : M unit) : M A :=
  fun w =>
    match m w with
    | (r, w') =>
        match cleanup w' with
        | (Ok _, w'') => (r, w'')
        | (Raise e, w'') => (Raise e, w'')
        end
    end.

Definition emit (e : event) : M unit :=
  fun w => (Ok tt, {| file := file w; browser := browser w;
                      events := events w ++ [e] |}).

(** [print(...)] *)
Definition print (m : message) : M unit := emit (Print m).

Definition get_file : M results_file := fun w => (Ok (file w), w).

Definition get_browser : M (option Page) := fun w => (Ok (browser w), w).

Definition set_file (f : results_file) : M unit :=
  fun w => (Ok tt, {| file := f; browser := browser w; events := events w |}).

Definition set_browser (p : Page) : M unit :=
  fun w => (Ok tt, {| file := file w; browser := Some p; events := events w |}).

(** A value that [None] replaces by an exception. *)
Definition or_raise {A} (o : option A) (e : exn) : M A :=
  match o with
  | Some a => ret a
  | None => raise e
  end.

(** [for x in xs: acc = body(acc, x)] *)
Fixpoint for_each {A B} (xs : list A) (acc : B) (body : B -> A -> M B) : M B :=
  match xs with
  | [] => ret acc
  | x :: xs' => acc' <- body acc x ;; for_each xs' acc' body
  end.

(** ** The program *)

Definition LISTING_URL_PREFIX : pystr := py "https://www.solar-guitars.com/shop/page/".

(** [LISTING_URL_TEMPLATE.format(page=page)] *)
Definition LISTING_URL_TEMPLATE (page : Z) : pystr :=
  LISTING_URL_PREFIX ++ py (pretty page) ++ py "/".

(** [range(1, 11)] *)
Definition PAGE_RANGE : list Z := [1; 2; 3; 4; 5; 6; 7; 8; 9; 10]%Z.

Definition STATIC_LISTING_URLS : list pystr :=
  [ py "https://www.solar-guitars.com/categorie-produit/pedals/";
    py "https://www.solar-guitars.com/outlet-store/";
    py "https://www.solar-guitars.com/categorie-produit/accessories/" ].

(** [bool(s)] on a string. *)
Definition truthy (s : pystr) : bool :=
  match s with
  | [] => false
  | _ => true
  end.

Section Crawler.

(** The shop: the page served for each URL. *)
Variable web : pystr -> Page.

(** The process environment, after [load_env_file]. *)
Variable environ : pystr -> option pystr.

(** The steps at which the SMTP session fails. *)
Variable smtp_failure : smtp_step -> bool.

(** Whether the [email] package raises while the message is put
    together: a sender or recipient that it cannot take as an address
    header, a body that it cannot encode. *)
Variable message_rejected : EmailMessage -> bool.

(** *** Result store *)

(** The loop body of [load_existing_results] (lines 60-67).  In the set
    of links a string [s] is [Some s]; [None] is Python's [None], which
    only the merge loop of [main] can add. *)
Definition load_step (acc : list dict * gset (option pystr)) (entry : json)
  : list dict * gset (option pystr) :=
  let '(deduped, links) := acc in
  match entry with
  | JDict fields =>
      match dict_get fields (py "link") with
      | JStr link =>
          if negb (truthy link) || bool_decide (Some link ∈ links)
          then (deduped, links)
          else (deduped ++ [fields], {[Some link]} ∪ links)
      | _ => (deduped, links)
      end
  | _ => (deduped, links)
  end.

(** [RESULTS_PATH.exists()] stands outside the [try], and the [except]
    clause of line 55 names [OSError], [JSONDecodeError] and
    [ValueError]: the [OSError] of the one and the [RecursionError] of
    [json.loads] leave the function. *)
Definition load_existing_results : M (list dict * gset (option pystr)) :=
  f <- get_file ;;
  match f with
  | Inaccessible => raise OSError
  | Missing => ret ([], ∅)
  | Unreadable => print FailedToRead ;; ret ([], ∅)
  | TooDeep => raise RecursionError
  | Stored (JList data) => ret (fold_left load_step data ([], ∅))
  | Stored _ => print FailedToRead ;; ret ([], ∅)
  end.

(** On a path beyond reach [write_text] raises the [OSError] that
    [exists()] raises. *)
Definition save_results (entries : list dict) : M unit :=
  f <- get_file ;;
  match f with
  | Inaccessible => raise OSError
  | _ =>
      emit (WriteResults entries) ;;
      set_file (Stored (JList (List.map JDict entries)))
  end.

(** *** Notifier *)

(** [os.getenv(name, default)] *)
Definition getenv_or (name default : pystr) : pystr :=
  match environ name with
  | Some v => v
  | None => default
  end.

(** [str.lower] is taken on ASCII letters: no other character has a
    lower-case form that occurs in the four accepted words. *)
Definition _bool_from_env (name : pystr) (default : bool) : bool :=
  match environ name with
  | None => default
  | Some raw =>
      let v := List.map lower (strip raw) in
      bool_decide (v = py "1") || bool_decide (v = py "true")
      || bool_decide (v = py "yes") || bool_decide (v = py "on")
  end.

(** The tuple returned by [get_email_settings]. *)
Record settings : Type := {
  host : pystr;
  port : Z;
  user : pystr;
  password : pystr;
  from_addr : pystr;
  to_addr : pystr;
  use_tls : bool;
}.

Definition get_email_settings : M (option settings) :=
  let host := getenv_or (py "EMAIL_HOST") (py "smtp.gmail.com") in
  port <- or_raise (int (getenv_or (py "EMAIL_PORT") (py "587"))) ValueError ;;
  let user := environ (py "EMAIL_USER") in
  let password := environ (py "EMAIL_PASSWORD") in
  let sender :=
    match environ (py "EMAIL_FROM") with
    | Some v => Some v
    | None => user
    end in
  let recipient := environ (py "EMAIL_TO") in
  let use_tls := _bool_from_env (py "EMAIL_USE_TLS") true in
  match user, password with
  | Some user, Some password =>
      if negb (truthy user) || negb (truthy password)
      then print CredentialsMissing ;; ret None
      else
        let sender :=
          match sender with
          | Some v => if truthy v then v else user
          | None => user
          end in
        match recipient with
        | Some recipient =>
            if truthy recipient
            then ret (Some {| host := host; port := port; user := user;
                              password := password; from_addr := sender;
                              to_addr := recipient; use_tls := use_tls |})
            else print RecipientMissing ;; ret None
        | None => print RecipientMissing ;; ret None
        end
  | _, _ => print CredentialsMissing ;; ret None
  end.

(** One step of the SMTP session: recorded, then failing if the server
    makes it fail (any exception; the caller catches them all). *)
Definition smtp (step : smtp_step) : M bool :=
  emit (Smtp step) ;; ret (negb (smtp_failure step)).

(** The body of the [try] block of [send_email_notification]: [true]
    when the session ran to its end, [false] when a step raised. *)
Definition smtp_session (s : settings) (msg : EmailMessage) : M bool :=
  ok <- smtp (Connect (host s) (port s)) ;;
  if negb ok then ret false else
  ok <- (if use_tls s then smtp StartTls else ret true) ;;
  if negb ok then ret false else
  ok <- smtp (Login (user s) (password s)) ;;
  if negb ok then ret false else
  smtp (SendMessage msg).

Definition send_email_notification (listings : list dict) : M unit :=
  settings <- get_email_settings ;;
  match settings, listings with
  | Some s, _ :: _ =>
      let msg :=
        {| count := length listings;
           sender := from_addr s;
           recipient := to_addr s;
           body := List.map (fun entry =>
                      (dict_get_or entry (py "title") (JStr (py "Unknown")),
                       dict_get_or entry (py "price") (JStr (EURO ++ py "0.00")),
                       dict_get entry (py "link"))) listings |} in
      (if message_rejected msg then raise MessageError else ret tt) ;;
      sent <- smtp_session s msg ;;
      if sent then print (NotificationSent (to_addr s))
      else print NotificationFailed
  | _, _ => ret tt
  end.

(** *** Page fetcher *)

(** [driver.get(url)] *)
Definition driver_get (url : pystr) : M unit :=
  emit (Get url) ;;
  set_browser (web url) ;;
  match load (web url) with
  | Loaded => ret tt
  | LoadTimeout => raise TimeoutException
  | LoadFailed msg => raise (WebDriverException msg)
  end.

(** The page shown by the browser; a browser that has not loaded
    anything shows an empty document. *)
Definition blank : Page :=
  {| load := Loaded; listing_container := false; initial_height := 0;
     growth := []; products := [] |}.

Definition current_page : M Page :=
  b <- get_browser ;;
  ret (match b with Some p => p | None => blank end).

Definition wait_for_listings : M unit :=
  emit WaitForContainer ;;
  p <- current_page ;;
  if listing_container p then ret tt else raise TimeoutException.

(** The [while True] loop of [scroll_page]: [prev_height] is the
    height before the scroll and [heights] the heights still to be
    measured. *)
Fixpoint scroll_loop (prev_height : N) (heights : list N) : M unit :=
  emit ScrollToBottom ;;
  match heights with
  | [] => ret tt
  | new_height :: heights' =>
      if (new_height =? prev_height)%N then ret tt
      else scroll_loop new_height heights'
  end.

Definition scroll_page : M unit :=
  p <- current_page ;;
  scroll_loop (initial_height p) (growth p).

(** [driver.find_elements(By.CSS_SELECTOR, "ul.listing-products li.listing-product")] *)
Definition find_elements : M (list Tile) :=
  emit FindElements ;;
  p <- current_page ;;
  ret (products p).

(** *** Listing extractor *)

(** [element.find_element(By.CSS_SELECTOR, sel)] *)
Definition find_element (element : Tile) (sel : selector) : M Element :=
  emit (FindElement sel) ;;
  or_raise (element sel) NoSuchElementException.

(** [except NoSuchElementException: pass], leaving [value] as the
    result of the [try] statement. *)
Definition on_missing_element {A} (value : A) (e : exn) : option (M A) :=
  match e with
  | NoSuchElementException => Some (ret value)
  | _ => None
  end.

Definition _read_price_value (element : Tile)
  : M (option pystr * option spec_float) :=
  price_value <-
    try_except
      (hidden <- find_element element price_for_filter ;;
       let hidden_text := strip (text_content hidden) in
       if truthy hidden_text
       then v <- or_raise (float (replace hidden_text (py ",") [])) ValueError ;;
            ret (Some v)
       else ret None)
      (on_missing_element None) ;;
  try_except
    (visible <- find_element element wcpbc_price ;;
     let price_text := strip (text visible) in
     match price_value with
     | None =>
         if truthy price_text
         then
           let numeric :=
             split (replace (replace (replace price_text EURO []) (py "$") [])
                            (py ",") []) in
           match last numeric with
           | Some token =>
               v <- or_raise (float token) ValueError ;;
               ret (Some price_text, Some v)
           | None => ret (Some price_text, None)
           end
         else ret (Some price_text, None)
     | Some _ => ret (Some price_text, price_value)
     end)
    (on_missing_element (None, price_value)).

Definition extract_listing_info (element : Tile) : M (option Listing) :=
  pv <- _read_price_value element ;;
  let '(price_text, price_value) := pv in
  match price_value with
  | None => ret None
  | Some v =>
      if negb (is_zero v) then ret None
      else
        link_element <- find_element element totallink ;;
        title_element <- find_element element item_compare_title ;;
        ret (Some {| title := strip (text title_element);
                     price_text :=
                       match price_text with
                       | Some t => if truthy t then t else EURO ++ py "0.00"
                       | None => EURO ++ py "0.00"
                       end;
                     link := href link_element |})
  end.

(** The handlers around [driver.get] in [collect_free_listings_on_url];
    [driver_get] raises nothing but the two exceptions handled. *)
Definition on_load_failure (url : pystr) (e : exn) : option (M bool) :=
  match e with
  | TimeoutException =>
      Some (print (TimedOutLoading url) ;; emit WindowStop ;; ret false)
  | WebDriverException msg =>
      Some (print (FailedToLoad url msg) ;; ret false)
  | _ => None
  end.

(** The body of the loop over the tiles (lines 247-249). *)
Definition collect_item (free_entries : list Listing) (item : Tile)
  : M (list Listing) :=
  listing <- extract_listing_info item ;;
  match listing with
  | Some l => ret (free_entries ++ [l])
  | None => ret free_entries
  end.

Definition collect_free_listings_on_url (url : pystr) : M (list Listing) :=
  loaded <- try_except (driver_get url ;; ret true) (on_load_failure url) ;;
  if negb loaded then ret []
  else
    wait_for_listings ;;
    scroll_page ;;
    items <- find_elements ;;
    for_each items [] collect_item.

Definition collect_free_listings_on_page (page_number : Z) : M (list Listing) :=
  collect_free_listings_on_url (LISTING_URL_TEMPLATE page_number).

(** *** Orchestrator *)

(** The body of the loop over [PAGE_RANGE] (lines 266-268). *)
Definition scan_page (run_listings : list Listing) (page : Z) : M (list Listing) :=
  page_listings <- collect_free_listings_on_page page ;;
  print (PageScanned page (length page_listings)) ;;
  ret (run_listings ++ page_listings).

(** The body of the loop over [STATIC_LISTING_URLS] (lines 270-272). *)
Definition scan_url (run_listings : list Listing) (url : pystr) : M (list Listing) :=
  url_listings <- collect_free_listings_on_url url ;;
  print (UrlScanned url (length url_listings)) ;;
  ret (run_listings ++ url_listings).

(** The two scanning loops of [main] (lines 264-272). *)
Definition main_scan : M (list Listing) :=
  run_listings <- for_each PAGE_RANGE [] scan_page ;;
  for_each STATIC_LISTING_URLS run_listings scan_url.

(** The state of the merge loop of [main]. *)
Record merge_state : Type := {
  stored_entries : list dict;
  known_links : gset (option pystr);
  new_entries : list dict;
}.

(** The body of the merge loop (lines 276-282). *)
Definition merge_step (st : merge_state) (listing : Listing) : merge_state :=
  if bool_decide (link listing ∈ known_links st) then st
  else
    let entry := to_dict listing in
    {| stored_entries := stored_entries st ++ [entry];
       known_links := {[link listing]} ∪ known_links st;
       new_entries := new_entries st ++ [entry] |}.

(** The rest of the [try] block of [main] (lines 274-289). *)
Definition main_merge (run_listings : list Listing) : M unit :=
  loaded <- load_existing_results ;;
  let '(stored, links) := loaded in
  let st := fold_left merge_step run_listings
              {| stored_entries := stored; known_links := links;
                 new_entries := [] |} in
  save_results (stored_entries st) ;;
  print (NewEntries (new_entries st)) ;;
  match new_entries st with
  | _ :: _ => send_email_notification (new_entries st)
  | [] => print NoNewListings
  end.

(** [main], from the moment the browser has been started. *)
Definition main : M unit :=
  try_finally
    (run_listings <- main_scan ;; main_merge run_listings)
    (emit Quit).

End Crawler.

(** ** What the specification says, as definitions *)

Section FirstOccurrences.

Context {A K : Type} `{EqDecision K}.
Variable key : A -> K.

(** Deduplication by key, first occurrence retained: an element of
    [xs] stays when its key is neither in [before] nor the key of an
    earlier element of [xs]. *)
Fixpoint keep_first (before : list K) (xs : list A) : list A :=
  match xs with
  | [] => []
  | x :: xs' =>
      if bool_decide (key x ∈ before)
      then keep_first (key x :: before) xs'
      else x :: keep_first (key x :: before) xs'
  end.

End FirstOccurrences.

(** The [link] field of a stored entry. *)
Definition link_of (entry : dict) : json := dict_get entry (py "link").

(** An entry of the results file that is an object with a non-empty
    string [link], together with that link. *)
Definition valid_entry (entry : json) : option (pystr * dict) :=
  match entry with
  | JDict fields =>
      match link_of fields with
      | JStr l => if truthy l then Some (l, fields) else None
      | _ => None
      end
  | _ => None
  end.

(** Result Store, load: empty for a missing, unparseable or non-list
    file; otherwise the entries that are objects with a non-empty string
    link, deduplicated by link with the first occurrence retained,
    together with the set of their links. *)
Definition spec_load (f : results_file) : list dict * gset (option pystr) :=
  match f with
  | Stored (JList data) =>
      let valid := omap valid_entry data in
      (snd <$> keep_first fst [] valid, list_to_set (Some ∘ fst <$> valid))
  | _ => ([], ∅)
  end.

(** Orchestrator: the listings of the run whose link is not already
    known, first occurrence within the run retained, in the order
    encountered. *)
Definition spec_new_listings (known : gset (option pystr)) (run_listings : list Listing)
  : list Listing :=
  keep_first link [] (filter (fun l => link l ∉ known) run_listings).

(** ** Notions used in the statements *)

(** A results file from which [load_existing_results] returns: every
    state but the two in which it raises. *)
Definition loadable (f : results_file) : bool :=
  match f with
  | Inaccessible | TooDeep => false
  | _ => true
  end.

(** A results file that [save_results] writes: every state but the one
    beyond reach. *)
Definition writable (f : results_file) : bool :=
  match f with
  | Inaccessible => false
  | _ => true
  end.

(** The world [w] after the events [evs]. *)
Definition add_events (w : world) (evs : list event) : world :=
  {| file := file w; browser := browser w; events := events w ++ evs |}.

(** A computation that changes nothing but the list of events. *)
Definition only_emits {A} (m : M A) : Prop :=
  forall w, exists r evs, m w = (r, add_events w evs).

(** A computation that returns normally from every world. *)
Definition returns {A} (m : M A) : Prop :=
  forall w, exists a w', m w = (Ok a, w').

(** What [main] does once the entries to store and the new entries are
    known (lines 284-289). *)
Definition persist_and_notify (environ : pystr -> option pystr)
    (smtp_failure : smtp_step -> bool)
    (message_rejected : EmailMessage -> bool) (entries new : list dict) : M unit :=
  save_results entries ;;
  print (NewEntries new) ;;
  match new with
  | _ :: _ => send_email_notification environ smtp_failure message_rejected new
  | [] => print NoNewListings
  end.

(** ** A small shop, for concrete runs *)

Module Example.

Definition A_URL : pystr := py "https://www.solar-guitars.com/product/a/".
Definition B_URL : pystr := py "https://www.solar-guitars.com/product/b/".
Definition C_URL : pystr := py "https://www.solar-guitars.com/product/c/".

Definition FREE : pystr := EURO ++ py "0.00".

Definition entry (name link : pystr) : dict :=
  [ (py "title", JStr name); (py "price", JStr FREE); (py "link", JStr link) ].

Definition shown (t : pystr) : Element :=
  {| text := t; text_content := t; href := None |}.

Definition anchor (target : option pystr) : Element :=
  {| text := []; text_content := []; href := target |}.

(** A tile with the given price texts, title and link target. *)
Definition tile (hidden visible : option pystr) (name : pystr)
    (target : option pystr) : Tile :=
  fun sel =>
    match sel with
    | price_for_filter => shown <$> hidden
    | wcpbc_price => shown <$> visible
    | totallink => Some (anchor target)
    | item_compare_title => Some (shown name)
    end.

(** A tile priced at zero. *)
Definition free_tile (name : pystr) (target : option pystr) : Tile :=
  tile (Some (py "0")) (Some FREE) name target.

Definition listing_page (tiles : list Tile) : Page :=
  {| load := Loaded; listing_container := true; initial_height := 900;
     growth := [1800; 2400; 2400]%N; products := tiles |}.

(** A shop whose first page shows [tiles] and whose other pages show
    no product. *)
Definition shop (tiles : list Tile) (url : pystr) : Page :=
  if bool_decide (url = LISTING_URL_TEMPLATE 1) then listing_page tiles
  else listing_page [].

Definition no_environ (name : pystr) : option pystr := None.

(** An environment with the three variables the notifier requires. *)
Definition mail_environ (name : pystr) : option pystr :=
  if bool_decide (name = py "EMAIL_USER") then Some (py "crawler@example.org")
  else if bool_decide (name = py "EMAIL_PASSWORD") then Some (py "secret")
  else if bool_decide (name = py "EMAIL_TO") then Some (py "owner@example.org")
  else None.

(** An SMTP server on which no step fails. *)
Definition never_fails (step : smtp_step) : bool := false.

(** The [email] package accepts every message. *)
Definition never_rejected (msg : EmailMessage) : bool := false.

Definition start (f : results_file) : world :=
  {| file := f; browser := None; events := [] |}.

(** The messages handed to the SMTP server. *)
Definition sent_messages (evs : list event) : list EmailMessage :=
  omap (fun e => match e with Smtp (SendMessage m) => Some m | _ => None end) evs.

(** The SMTP steps attempted. *)
Definition smtp_steps (evs : list event) : list smtp_step :=
  omap (fun e => match e with Smtp s => Some s | _ => None end) evs.

(** The lists of new entries printed. *)
Definition printed_new_entries (evs : list event) : list (list dict) :=
  omap (fun e => match e with Print (NewEntries n) => Some n | _ => None end) evs.

End Example.

(** The world in which the next run starts: the results file as the
    previous run left it, a fresh browser, no output yet. *)
Definition next_run (w : world) : world := Example.start (file w).

(** ** The extractor and the scan as functions of the pages *)

(** The events of looking up one of the two price elements. *)
Definition price_query (e : event) : Prop :=
  e = FindElement price_for_filter \/ e = FindElement wcpbc_price.

(** The outcome of resolving the price depends on the tile alone. *)
Definition resolved_price (element : Tile)
  : result (option pystr * option spec_float) :=
  (_read_price_value element {| file := Missing; browser := None; events := [] |}).1.

(** A tile qualifies as a finding when its price resolves to zero. *)
Definition qualifies (element : Tile) : bool :=
  match resolved_price element with
  | Ok (_, Some v) => is_zero v
  | _ => false
  end.

(** The visible price string with currency symbols and thousands
    separators removed, split at whitespace. *)
Definition price_tokens (price_text : pystr) : list pystr :=
  split (replace (replace (replace price_text EURO []) (py "$") []) (py ",") []).

(** The URLs of a run, in scanning order. *)
Definition scanned_urls : list pystr :=
  (LISTING_URL_TEMPLATE <$> PAGE_RANGE) ++ STATIC_LISTING_URLS.

(** What is printed and done when [driver.get] fails. *)
Definition load_failure_log (url : pystr) (outcome : load_outcome) : list event :=
  match outcome with
  | Loaded => []
  | LoadTimeout => [Print (TimedOutLoading url); WindowStop]
  | LoadFailed msg => [Print (FailedToLoad url msg)]
  end.

(** The world once the browser has been sent to [url] and [evs] added. *)
Definition visited (web : pystr -> Page) (url : pystr) (w : world)
    (evs : list event) : world :=
  {| file := file w; browser := Some (web url); events := events w ++ Get url :: evs |}.

(** What the extractor returns for a tile, whatever the world. *)
Definition extracted (element : Tile) : result (option Listing) :=
  (extract_listing_info element {| file := Missing; browser := None; events := [] |}).1.

(** The listings collected from a list of tiles, or the first exception
    met. *)
Fixpoint collected (items : list Tile) (free_entries : list Listing)
  : result (list Listing) :=
  match items with
  | [] => Ok free_entries
  | item :: items' =>
      match extracted item with
      | Ok (Some l) => collected items' (free_entries ++ [l])
      | Ok None => collected items' free_entries
      | Raise e => Raise e
      end
  end.

(** What [collect_free_listings_on_url] returns for a page. *)
Definition page_listings (p : Page) : result (list Listing) :=
  match load p with
  | Loaded =>
      if listing_container p then collected (products p) []
      else Raise TimeoutException
  | _ => Ok []
  end.

(** The listings of a run over [urls], or the first exception met. *)
Fixpoint scanned (web : pystr -> Page) (urls : list pystr)
    (run_listings : list Listing) : result (list Listing) :=
  match urls with
  | [] => Ok run_listings
  | url :: urls' =>
      match page_listings (web url) with
      | Ok found => scanned web urls' (run_listings ++ found)
      | Raise e => Raise e
      end
  end.

(** A tile on which the extractor returns. *)
Definition extractable (element : Tile) : Prop :=
  exists listing, extracted element = Ok listing.

(** A tile without defect: its price resolves without exception, and if
    it resolves to zero the title and link elements are there. *)
Definition sound_tile (element : Tile) : Prop :=
  (exists price, resolved_price element = Ok price) /\
  (qualifies element = true ->
   is_Some (element totallink) /\ is_Some (element item_compare_title)).

(** A page without defect: if it loads, the listing container appears
    and every tile is sound. *)
Definition sound_page (p : Page) : Prop :=
  load p = Loaded -> listing_container p = true /\ Forall sound_tile (products p).

(** A listing whose link is a non-empty string. *)
Definition has_link (l : Listing) : Prop :=
  exists s, link l = Some s /\ truthy s = true.

(** A stored entry whose link is a non-empty string. *)
Definition entry_has_link (entry : dict) : Prop :=
  exists s, link_of entry = JStr s /\ truthy s = true.

(** An environment variable that is unset or empty. *)
Definition unset_or_empty (value : option pystr) : Prop :=
  match value with
  | Some v => truthy v = false
  | None => True
  end.

(** ** Notions used in the further properties *)

(** The entries of the results file, when it holds a list. *)
Definition file_entries (f : results_file) : list json :=
  match f with
  | Stored (JList data) => data
  | _ => []
  end.


(** The message that [send_email_notification] puts together (lines
    121-134). *)
Definition email_message (s : settings) (listings : list dict) : EmailMessage :=
  {| count := length listings;
     sender := from_addr s;
     recipient := to_addr s;
     body := List.map (fun entry =>
                (dict_get_or entry (py "title") (JStr (py "Unknown")),
                 dict_get_or entry (py "price") (JStr (EURO ++ py "0.00")),
                 dict_get entry (py "link"))) listings |}.

(** The steps of an SMTP session, in the order of lines 137-141. *)
Definition session_steps (s : settings) (msg : EmailMessage) : list smtp_step :=
  Connect (host s) (port s)
  :: (if use_tls s then [StartTls] else [])
  ++ [Login (user s) (password s); SendMessage msg].

(** The steps of [steps] up to the first that fails, that one included. *)
Fixpoint attempted (failure : smtp_step -> bool) (steps : list smtp_step)
  : list smtp_step :=
  match steps with
  | [] => []
  | step :: steps' =>
      step :: (if failure step then [] else attempted failure steps')
  end.

(** Whether none of [steps] fails. *)
Definition all_succeed (failure : smtp_step -> bool) (steps : list smtp_step) : bool :=
  forallb (fun step => negb (failure step)) steps.

(** The listing that the extractor returns for a tile, if any. *)
Definition listing_of (element : Tile) : option Listing :=
  match extracted element with
  | Ok found => found
  | Raise _ => None
  end.

(** The listings of the tiles of a page that loads, in page order. *)
Definition findings (p : Page) : list Listing :=
  match load p with
  | Loaded => omap listing_of (products p)
  | _ => []
  end.

(** The URLs requested from the browser, in order. *)
Definition urls_got (evs : list event) : list pystr :=
  omap (fun e => match e with Get url => Some url | _ => None end) evs.

(** The lists of entries written to the results file, in order. *)
Definition results_written (evs : list event) : list (list dict) :=
  omap (fun e => match e with WriteResults entries => Some entries | _ => None end) evs.

(** An event other than a write of the results file and the closing of
    the browser. *)
Definition browsing (e : event) : Prop :=
  match e with
  | WriteResults _ | Quit => False
  | _ => True
  end.

(** A browsing event other than the request of a page. *)
Definition passive (e : event) : Prop :=
  match e with
  | Get _ | WriteResults _ | Quit => False
  | _ => True
  end.

(** A computation that changes nothing but the list of events, to which
    it adds events in [P] only. *)
Definition emits_only {A} (P : event -> Prop) (m : M A) : Prop :=
  forall w, exists r evs, m w = (r, add_events w evs) /\ Forall P evs.

(** * Theorems *)

(** ** Python's numbers *)

(** [float] against the literals of the primitive floats. *)
Example float_examples :
  float (py "0") = Some (Prim2SF 0%float) /\
  float (py "-0") = Some (Prim2SF (-0)%float) /\
  float (py " 1_200.50 ") = Some (Prim2SF 1200.5%float) /\
  float (py "0.1") = Some (Prim2SF 0.1%float) /\
  float (py "1e23") = Some (Prim2SF 1e23%float) /\
  float (py ".5E-3") = Some (Prim2SF 0.0005%float) /\
  float (py "5e-324") = Some (Prim2SF 5e-324%float) /\
  float (py "1.7976931348623157e308") = Some (Prim2SF 1.7976931348623157e308%float) /\
  float (py "1e400") = Some (S754_infinity false) /\
  float (py "1e-400") = Some (S754_zero false) /\
  float (py "-Infinity") = Some (S754_infinity true) /\
  float (py "NaN") = Some S754_nan /\
  float (py "1,5") = None /\
  float (py "1__0") = None /\
  float [] = None /\
  float (py "N/A") = None.
Proof. vm_compute. done. Qed.

Example is_zero_examples :
  is_zero (S754_zero false) = true /\
  is_zero (S754_zero true) = true /\
  is_zero S754_nan = false /\
  is_zero (Prim2SF 5e-324%float) = false.
Proof. vm_compute. done. Qed.

Example int_examples :
  int (py "587") = Some 587%Z /\
  int (py " +5_87 ") = Some 587%Z /\
  int (py "-25") = Some (-25)%Z /\
  int (py "smtp") = None /\
  int (py "587.0") = None /\
  int [] = None.
Proof. vm_compute. done. Qed.

Example string_examples :
  strip (py "  a b  ") = py "a b" /\
  split (py " 1,200.00   0.00 ") = [py "1,200.00"; py "0.00"] /\
  split (160%N :: py "a" ++ 8239%N :: py "b") = [py "a"; py "b"] /\
  replace (py "1,200,000") (py ",") [] = py "1200000" /\
  price_tokens (EURO ++ py "1,200.00 " ++ EURO ++ py "0.00") = [py "1200.00"; py "0.00"].
Proof. vm_compute. done. Qed.

(** ** Worlds and events *)

Lemma add_events_nil w : add_events w [] = w.
Proof. destruct w; unfold add_events; simpl. by rewrite app_nil_r. Qed.

Lemma add_events_app w evs1 evs2 :
  add_events (add_events w evs1) evs2 = add_events w (evs1 ++ evs2).
Proof. unfold add_events; simpl. by rewrite app_assoc. Qed.

(** ** The result store *)

Section FirstOccurrencesFacts.

Context {A K : Type} `{EqDecision K}.
Variable key : A -> K.

Lemma keep_first_elem (before : list K) (xs : list A) (x : A) :
  x ∈ keep_first key before xs -> x ∈ xs /\ key x ∉ before.
Proof.
  revert before. induction xs as [|y xs IH]; intros before Hx; simpl in Hx.
  - by apply elem_of_nil in Hx.
  - case_bool_decide as Hy.
    + apply IH in Hx as [? Hn]. split; [by right|].
      intros ?. apply Hn. by right.
    + apply elem_of_cons in Hx as [->|Hx]; [split; [by left|done]|].
      apply IH in Hx as [? Hn]. split; [by right|].
      intros ?. apply Hn. by right.
Qed.

(** No two retained elements share a key. *)
Lemma keep_first_NoDup (before : list K) (xs : list A) :
  NoDup (key <$> keep_first key before xs).
Proof.
  revert before. induction xs as [|y xs IH]; intros before; simpl.
  - constructor.
  - case_bool_decide; [apply IH|].
    rewrite fmap_cons. constructor; [|apply IH].
    intros Hin. apply list_elem_of_fmap in Hin as (z & Hz & Hin).
    apply keep_first_elem in Hin as [_ Hn]. apply Hn. rewrite Hz. by left.
Qed.

(** Every key of [xs] outside [before] is the key of a retained
    element. *)
Lemma keep_first_complete (before : list K) (xs : list A) (x : A) :
  x ∈ xs -> key x ∉ before -> key x ∈ key <$> keep_first key before xs.
Proof.
  revert before. induction xs as [|y xs IH]; intros before Hx Hn; simpl.
  - by apply elem_of_nil in Hx.
  - destruct (decide (key x = key y)) as [Heq|Hne].
    + rewrite <- Heq. rewrite bool_decide_eq_false_2 by done.
      rewrite fmap_cons, Heq. by left.
    + apply elem_of_cons in Hx as [->|Hx]; [done|].
      assert (key x ∉ key y :: before) as Hn'.
      { intros [?|?]%elem_of_cons; done. }
      case_bool_decide; [by apply IH|].
      rewrite fmap_cons. right. by apply IH.
Qed.

(** The retained elements keep the order of [xs]. *)
Lemma keep_first_sublist (before : list K) (xs : list A) :
  sublist (keep_first key before xs) xs.
Proof.
  revert before. induction xs as [|y xs IH]; intros before; simpl.
  - constructor.
  - case_bool_decide; [apply sublist_cons, IH | apply sublist_skip, IH].
Qed.

End FirstOccurrencesFacts.

Lemma fold_left_invariant {A B} (P : A -> Prop) (f : A -> B -> A) (l : list B) (a : A) :
  P a -> (forall a b, P a -> P (f a b)) -> P (fold_left f l a).
Proof.
  intros Ha Hf. revert a Ha. induction l as [|b l IH]; intros a Ha; simpl; auto.
Qed.

(** One step of the loading loop against [valid_entry]. *)
Lemma load_step_valid (deduped : list dict) (links : gset (option pystr)) (entry : json) :
  load_step (deduped, links) entry =
    match valid_entry entry with
    | Some (l, fields) =>
        if bool_decide (Some l ∈ links) then (deduped, links)
        else (deduped ++ [fields], {[Some l]} ∪ links)
    | None => (deduped, links)
    end.
Proof.
  unfold load_step, valid_entry, link_of.
  destruct entry as [| | | | |?|fields]; try done.
  destruct (dict_get fields (py "link")) as [| | | |l| |]; try done.
  destruct (truthy l); simpl; [|done].
  by case_bool_decide.
Qed.

(** The loading loop computes the first occurrences of the valid
    entries; [before] lists the links already in [links]. *)
Lemma load_loop (data : list json) :
  forall (deduped : list dict) (links : gset (option pystr)) (before : list pystr),
    (forall l, Some l ∈ links <-> l ∈ before) ->
    fold_left load_step data (deduped, links) =
      (deduped ++ (snd <$> keep_first fst before (omap valid_entry data)),
       links ∪ list_to_set (Some ∘ fst <$> omap valid_entry data)).
Proof.
  induction data as [|entry data IH]; intros deduped links before Hb.
  - simpl. rewrite app_nil_r. f_equal. set_solver.
  - cbn [fold_left omap list_omap]. rewrite load_step_valid.
    destruct (valid_entry entry) as [[l fields]|]; simpl; [|by apply IH].
    rewrite (bool_decide_ext (Some l ∈ links) (l ∈ before)) by apply Hb.
    case_bool_decide as Hl.
    + rewrite (IH deduped links (l :: before)).
      * f_equal. apply Hb in Hl. set_solver.
      * intros l'. rewrite elem_of_cons, Hb. naive_solver.
    + rewrite (IH (deduped ++ [fields]) ({[Some l]} ∪ links) (l :: before)).
      * rewrite fmap_cons, <- app_assoc. simpl. f_equal. set_solver.
      * intros l'. rewrite elem_of_cons, elem_of_union, elem_of_singleton, Hb.
        naive_solver.
Qed.

Lemma load_existing_results_eq (w : world) :
  loadable (file w) = true ->
  exists evs, load_existing_results w = (Ok (spec_load (file w)), add_events w evs).
Proof.
  unfold load_existing_results, bind, get_file, spec_load.
  destruct (file w) as [| |data| |] eqn:Hf; [| | |done|done]; intros _.
  - exists []. by rewrite add_events_nil.
  - by exists [Print FailedToRead].
  - destruct data as [| | | | |data|]; try by exists [Print FailedToRead].
    exists []. rewrite add_events_nil. unfold ret. f_equal. f_equal.
    rewrite (load_loop data [] ∅ []); [f_equal; set_solver|].
    intros l. set_solver.
Qed.

(** A results file that cannot be loaded ends [load_existing_results]
    with the exception met, nothing printed. *)
Lemma load_existing_results_raises (w : world) :
  loadable (file w) = false ->
  exists e, load_existing_results w = (Raise e, w) /\
            (e = OSError \/ e = RecursionError).
Proof.
  unfold load_existing_results, bind, get_file, raise.
  destruct (file w) as [| |data| |]; try done; intros _.
  - exists OSError. by split; [|left].
  - exists RecursionError. by split; [|right].
Qed.

(** C4.  Loading the store can raise.  The handler of line 55 is there
    for a store that cannot be read or parsed, which then counts as
    empty; but a results file that holds JSON nested too deep, or that
    lies beyond reach, ends [load_existing_results] with
    [RecursionError] or [OSError], for every state of the browser and of
    the output.  A run of [main] over a shop with one free guitar that
    meets a results file nested too deep ends with that exception:
    nothing is saved and no mail is sent, where the same run over a
    results file that is not JSON saves the finding and sends the
    mail. *)
Theorem unloadable_store_raises :
  (forall (b : option Page) (evs : list event),
     let w := {| file := TooDeep; browser := b; events := evs |} in
     load_existing_results w = (Raise RecursionError, w)) /\
  (forall (b : option Page) (evs : list event),
     let w := {| file := Inaccessible; browser := b; events := evs |} in
     load_existing_results w = (Raise OSError, w)) /\
  (let web := Example.shop [Example.free_tile (py "C") (Some Example.C_URL)] in
   let run (f : results_file) :=
     main web Example.mail_environ Example.never_fails Example.never_rejected
       (Example.start f) in
   (run TooDeep).1 = Raise RecursionError /\
   file (run TooDeep).2 = TooDeep /\
   Example.sent_messages (events (run TooDeep).2) = [] /\
   (run Unreadable).1 = Ok tt /\
   file (run Unreadable).2 =
     Stored (JList [JDict (Example.entry (py "C") Example.C_URL)]) /\
   length (Example.sent_messages (events (run Unreadable).2)) = 1%nat).
Proof.
  split; [done|]. split; [done|]. vm_compute. done.
Qed.

(** X23.  Where [load_existing_results] returns.  For every results
    file but one that is nested too deep or beyond reach, it returns
    and leaves the file as it is: for a missing file, an unreadable or
    unparseable one, or a document that is not a list, the result is the
    empty collection; otherwise it is the stored entries that are objects
    with a non-empty string link, deduplicated by link with the first
    occurrence retained.  A file that holds A, a string, an object
    without link, objects with an empty and with a numeric link, B, and
    a second entry with the link of A loads as A, B. *)
Theorem load_existing_results_spec :
  (forall w : world,
     loadable (file w) = true ->
     exists evs,
       load_existing_results w = (Ok (spec_load (file w)), add_events w evs)) /\
  (spec_load Missing = ([], ∅) /\
   spec_load Unreadable = ([], ∅) /\
   spec_load (Stored (JDict [(py "link", JStr Example.A_URL)])) = ([], ∅)) /\
  (let a := Example.entry (py "A") Example.A_URL in
   let b := Example.entry (py "B") Example.B_URL in
   (load_existing_results
      (Example.start
         (Stored (JList [ JDict a; JStr Example.C_URL;
                          JDict [(py "title", JStr (py "C"))];
                          JDict (Example.entry (py "C") []);
                          JDict [(py "link", JInt 3)];
                          JDict b;
                          JDict (Example.entry (py "A again") Example.A_URL) ])))).1
   = Ok ([a; b], {[Some Example.A_URL; Some Example.B_URL]})).
Proof.
  split; [apply load_existing_results_eq|]. split; [done|].
  vm_compute. reflexivity.
Qed.

Lemma load_existing_results_spec_witness :
  exists evs,
    load_existing_results (Example.start Unreadable) =
      (Ok (spec_load Unreadable), add_events (Example.start Unreadable) evs).
Proof.
  apply (proj1 load_existing_results_spec (Example.start Unreadable)). reflexivity.
Defined.

(** Every link retained by the loading loop is a string, and the entry
    holds it in its [link] field. *)
Lemma valid_entry_link (entry : json) (l : pystr) (fields : dict) :
  valid_entry entry = Some (l, fields) -> link_of fields = JStr l.
Proof.
  unfold valid_entry. destruct entry as [| | | | | |fields']; try done.
  destruct (link_of fields') as [| | | |l'| |] eqn:Hl; try done.
  destruct (truthy l'); [|done]. by intros [= <- <-].
Qed.

Lemma valid_entries_link (data : list json) (before : list pystr) :
  link_of <$> (snd <$> keep_first fst before (omap valid_entry data)) =
  JStr <$> (fst <$> keep_first fst before (omap valid_entry data)).
Proof.
  rewrite <- !list_fmap_compose. apply list_fmap_ext.
  intros i [l fields] Hin%list_elem_of_lookup_2. simpl.
  apply keep_first_elem in Hin as [Hin _].
  apply list_elem_of_omap in Hin as (entry & _ & Hv).
  by apply valid_entry_link in Hv.
Qed.

Lemma link_of_to_dict (l : Listing) : link_of (to_dict l) = json_of_link (link l).
Proof. reflexivity. Qed.

#[local] Instance json_of_link_inj : Inj (=) (=) json_of_link.
Proof. intros [x|] [y|] Heq; simpl in Heq; congruence. Qed.

#[local] Instance JStr_inj : Inj (=) (=) JStr.
Proof. intros x y Heq. congruence. Qed.

(** The merge loop of [main] appends the first occurrences of the
    listings whose link is not in [known0]; [before] lists the links
    added to [known0] so far. *)
Lemma merge_loop (run_listings : list Listing) :
  forall (st : merge_state) (known0 : gset (option pystr)) (before : list (option pystr)),
    known_links st = known0 ∪ list_to_set before ->
    let sel := keep_first link before (filter (fun l => link l ∉ known0) run_listings) in
    fold_left merge_step run_listings st =
      {| stored_entries := stored_entries st ++ (to_dict <$> sel);
         known_links := known_links st ∪ list_to_set (link <$> run_listings);
         new_entries := new_entries st ++ (to_dict <$> sel) |}.
Proof.
  induction run_listings as [|l run IH]; intros st known0 before Hk.
  - simpl. rewrite !app_nil_r. destruct st; simpl. f_equal. set_solver.
  - cbn [fold_left]. unfold merge_step at 2.
    destruct (decide (link l ∈ known0)) as [Hin|Hout].
    + rewrite bool_decide_eq_true_2 by (rewrite Hk; set_solver).
      rewrite filter_cons_False by (intros Hn; by apply Hn).
      rewrite (IH st known0 before Hk). simpl. f_equal.
      rewrite Hk. set_solver.
    + rewrite filter_cons_True by done. cbn [keep_first].
      destruct (decide (link l ∈ before)) as [Hb|Hb].
      * rewrite bool_decide_eq_true_2 by (rewrite Hk; set_solver).
        rewrite (bool_decide_eq_true_2 _ Hb).
        rewrite (IH st known0 (link l :: before)) by (rewrite Hk; set_solver).
        simpl. f_equal. rewrite Hk. set_solver.
      * rewrite bool_decide_eq_false_2 by (rewrite Hk; set_solver).
        rewrite (bool_decide_eq_false_2 _ Hb).
        rewrite (IH _ known0 (link l :: before)) by (simpl; rewrite Hk; set_solver).
        simpl. rewrite <- !app_assoc. simpl. f_equal. set_solver.
Qed.

(** ** Computations that only add events *)

Lemma only_emits_ret {A} (a : A) : only_emits (ret a).
Proof. intros w. exists (Ok a), []. by rewrite add_events_nil. Qed.

Lemma only_emits_raise {A} (e : exn) : only_emits (@raise A e).
Proof. intros w. exists (Raise e), []. by rewrite add_events_nil. Qed.

Lemma only_emits_emit (e : event) : only_emits (emit e).
Proof. intros w. by exists (Ok tt), [e]. Qed.

Lemma only_emits_bind {A B} (m : M A) (k : A -> M B) :
  only_emits m -> (forall a, only_emits (k a)) -> only_emits (bind m k).
Proof.
  intros Hm Hk w. unfold bind. destruct (Hm w) as (r & evs & ->).
  destruct r as [a|e]; [|by exists (Raise e), evs].
  destruct (Hk a (add_events w evs)) as (r' & evs' & ->).
  exists r', (evs ++ evs'). by rewrite add_events_app.
Qed.

Lemma only_emits_try_except {A} (m : M A) (handler : exn -> option (M A)) :
  only_emits m -> (forall e h, handler e = Some h -> only_emits h) ->
  only_emits (try_except m handler).
Proof.
  intros Hm Hh w. unfold try_except. destruct (Hm w) as (r & evs & ->).
  destruct r as [a|e]; [by exists (Ok a), evs|].
  destruct (handler e) as [h|] eqn:He; [|by exists (Raise e), evs].
  destruct (Hh e h He (add_events w evs)) as (r' & evs' & ->).
  exists r', (evs ++ evs'). by rewrite add_events_app.
Qed.

Lemma only_emits_or_raise {A} (o : option A) (e : exn) : only_emits (or_raise o e).
Proof. destruct o; [apply only_emits_ret | apply only_emits_raise]. Qed.

Lemma only_emits_for_each {A B} (xs : list A) (acc : B) (body : B -> A -> M B) :
  (forall acc x, only_emits (body acc x)) -> only_emits (for_each xs acc body).
Proof.
  intros Hb. revert acc. induction xs as [|x xs IH]; intros acc; simpl.
  - apply only_emits_ret.
  - apply only_emits_bind; [apply Hb | intros; apply IH].
Qed.

Create HintDb emits.
#[local] Hint Resolve only_emits_ret only_emits_raise only_emits_emit
  only_emits_or_raise : emits.

(** Proves [only_emits] for a program built from the monad's
    operations, going under the case distinctions it makes. *)
Ltac emits :=
  repeat first
    [ progress intros
    | apply only_emits_bind
    | apply only_emits_try_except
    | apply only_emits_for_each
    | solve [auto with emits]
    | progress unfold print
    | match goal with
      | |- only_emits (match ?x with _ => _ end) => destruct x
      | |- only_emits (if ?b then _ else _) => destruct b
      | |- only_emits (let '(_, _) := ?x in _) => destruct x
      end ].

Lemma get_email_settings_emits (environ : pystr -> option pystr) :
  only_emits (get_email_settings environ).
Proof. unfold get_email_settings. emits. Qed.

Lemma smtp_session_emits (smtp_failure : smtp_step -> bool) s msg :
  only_emits (smtp_session smtp_failure s msg).
Proof. unfold smtp_session, smtp. emits. Qed.

Lemma send_email_notification_emits (environ : pystr -> option pystr)
    (smtp_failure : smtp_step -> bool)
    (message_rejected : EmailMessage -> bool) (listings : list dict) :
  only_emits (send_email_notification environ smtp_failure message_rejected listings).
Proof.
  unfold send_email_notification.
  apply only_emits_bind; [apply get_email_settings_emits|].
  intros [s|]; [|emits]. destruct listings; [emits|].
  apply only_emits_bind; [emits|]. intros _.
  apply only_emits_bind; [apply smtp_session_emits | emits].
Qed.
#[local] Hint Resolve get_email_settings_emits smtp_session_emits
  send_email_notification_emits : emits.

(** ** The orchestrator's merge *)

Lemma main_merge_eq (environ : pystr -> option pystr)
    (smtp_failure : smtp_step -> bool)
    (message_rejected : EmailMessage -> bool) (run_listings : list Listing)
    (w w1 : world) (stored : list dict) (known : gset (option pystr)) :
  load_existing_results w = (Ok (stored, known), w1) ->
  let new := to_dict <$> spec_new_listings known run_listings in
  main_merge environ smtp_failure message_rejected run_listings w =
    persist_and_notify environ smtp_failure message_rejected (stored ++ new) new w1.
Proof.
  intros Hload. unfold main_merge, bind at 1. rewrite Hload.
  rewrite (merge_loop run_listings _ known []) by (simpl; set_solver).
  reflexivity.
Qed.

Lemma loadable_writable (f : results_file) : loadable f = true -> writable f = true.
Proof. by destruct f. Qed.

Lemma save_results_eq (entries : list dict) (w : world) :
  writable (file w) = true ->
  save_results entries w =
    (Ok tt, {| file := Stored (JList (List.map JDict entries));
               browser := browser w;
               events := events w ++ [WriteResults entries] |}).
Proof. unfold save_results, bind, get_file. by destruct (file w). Qed.

Lemma persist_and_notify_file (environ : pystr -> option pystr)
    (smtp_failure : smtp_step -> bool)
    (message_rejected : EmailMessage -> bool) (entries new : list dict) (w : world) :
  writable (file w) = true ->
  exists r evs,
    persist_and_notify environ smtp_failure message_rejected entries new w =
      (r, {| file := Stored (JList (List.map JDict entries));
             browser := browser w;
             events := events w ++ WriteResults entries :: Print (NewEntries new) :: evs |}).
Proof.
  intros Hw.
  assert (only_emits (A:=unit)
            match new with
            | [] => print NoNewListings
            | _ :: _ => send_email_notification environ smtp_failure message_rejected new
            end) as Hn by (destruct new; unfold print; auto with emits).
  unfold persist_and_notify, bind. rewrite save_results_eq by done.
  unfold print at 1, emit at 1.
  match goal with |- context [ ?m ?w1 ] =>
    match m with match new with _ => _ end =>
      destruct (Hn w1) as (r & evs & ->) end end.
  exists r, evs. unfold add_events. simpl. by rewrite <- !app_assoc.
Qed.

(** The stored links after a merge: those loaded, then those of the new
    entries, all different. *)
Lemma merged_links_NoDup (f : results_file) (run_listings : list Listing) :
  NoDup (link_of <$> (spec_load f).1) /\
  NoDup (link_of <$> ((spec_load f).1 ++
                      (to_dict <$> spec_new_listings (spec_load f).2 run_listings))).
Proof.
  assert (forall data : list json,
    NoDup (link_of <$> (snd <$> keep_first fst [] (omap valid_entry data)))) as Hloaded.
  { intros data. rewrite valid_entries_link.
    apply (NoDup_fmap_2 JStr), keep_first_NoDup. }
  assert (forall known : gset (option pystr),
    NoDup (link_of <$> (to_dict <$> spec_new_listings known run_listings))) as Hnew.
  { intros known. rewrite <- list_fmap_compose.
    rewrite (list_fmap_ext (link_of ∘ to_dict) (json_of_link ∘ link))
      by (intros; apply link_of_to_dict).
    rewrite list_fmap_compose.
    apply (NoDup_fmap_2 json_of_link), keep_first_NoDup. }
  unfold spec_load.
  destruct f as [| |[| | | | |data|]| |]; cbn [fst snd app];
    try (split; [constructor | apply Hnew]).
  split; [apply Hloaded|].
  rewrite fmap_app. apply NoDup_app. split; [apply Hloaded|]. split; [|apply Hnew].
  intros j Hj Hj'. rewrite valid_entries_link in Hj.
  apply list_elem_of_fmap in Hj as (l & -> & Hl).
  apply list_elem_of_fmap in Hl as ([l' fields] & -> & Hl). simpl in Hj'.
  apply keep_first_elem in Hl as [Hl _].
  apply list_elem_of_fmap in Hj' as (d & Hd & Hin).
  apply list_elem_of_fmap in Hin as (x & -> & Hx).
  rewrite link_of_to_dict in Hd.
  apply keep_first_elem in Hx as [Hx _].
  apply list_elem_of_filter in Hx as [Hx _]. apply Hx.
  destruct (link x) as [lx|]; simpl in Hd; [|done].
  injection Hd as ->. apply elem_of_list_to_set, list_elem_of_fmap.
  by exists (lx, fields).
Qed.



(** C3.  No two entries produced by loading the store carry the same
    link, and the merge keeps it so: the list written back at the end of
    a run, loaded entries followed by the new ones, has no two entries
    with the same link either.  This holds of every store that loads. *)
Theorem stored_links_stay_unique (environ : pystr -> option pystr)
    (smtp_failure : smtp_step -> bool)
    (message_rejected : EmailMessage -> bool) (run_listings : list Listing) (w : world) :
  loadable (file w) = true ->
  (exists stored known evs,
     load_existing_results w = (Ok (stored, known), add_events w evs) /\
     NoDup (link_of <$> stored)) /\
  (exists entries r evs1 evs2 w',
     main_merge environ smtp_failure message_rejected run_listings w = (r, w') /\
     events w' = events w ++ evs1 ++ WriteResults entries :: evs2 /\
     file w' = Stored (JList (List.map JDict entries)) /\
     NoDup (link_of <$> entries)).
Proof.
  intros Hf.
  destruct (load_existing_results_eq w Hf) as (evs & Hload).
  destruct (merged_links_NoDup (file w) run_listings) as [Hstored Hall].
  destruct (spec_load (file w)) as [stored known]. cbn [fst snd] in *.
  split; [by exists stored, known, evs|].
  set (new := to_dict <$> spec_new_listings known run_listings) in *.
  destruct (persist_and_notify_file environ smtp_failure message_rejected (stored ++ new) new
              (add_events w evs) (loadable_writable _ Hf)) as (r & evs' & Hp).
  eexists (stored ++ new), r, evs, _, _.
  rewrite (main_merge_eq _ _ _ _ _ _ _ _ Hload). fold new. rewrite Hp.
  cbn [events file add_events]. rewrite <- app_assoc. done.
Qed.

Lemma stored_links_stay_unique_witness :
  let a := Example.entry (py "A") Example.A_URL in
  let run := [ {| title := py "A"; price_text := Example.FREE;
                  link := Some Example.A_URL |};
               {| title := py "C"; price_text := Example.FREE;
                  link := Some Example.C_URL |};
               {| title := py "C"; price_text := Example.FREE;
                  link := Some Example.C_URL |} ] in
  let w := Example.start (Stored (JList [JDict a; JDict a])) in
  (exists stored known evs,
     load_existing_results w = (Ok (stored, known), add_events w evs) /\
     NoDup (link_of <$> stored)) /\
  (exists entries r evs1 evs2 w',
     main_merge Example.no_environ Example.never_fails Example.never_rejected run w =
       (r, w') /\
     events w' = events w ++ evs1 ++ WriteResults entries :: evs2 /\
     file w' = Stored (JList (List.map JDict entries)) /\
     NoDup (link_of <$> entries)).
Proof.
  intros a run w.
  apply (stored_links_stay_unique Example.no_environ Example.never_fails
           Example.never_rejected run w).
  reflexivity.
Defined.

(** ** The listing extractor *)

#[local] Arguments float : simpl never.
#[local] Arguments int : simpl never.
#[local] Arguments strip : simpl never.
#[local] Arguments split : simpl never.
#[local] Arguments replace : simpl never.
#[local] Arguments is_zero : simpl never.
#[local] Arguments truthy : simpl never.
#[local] Arguments py : simpl never.
#[local] Arguments last : simpl never.

(** One step of running a program of the monad: a case distinction on
    an innermost scrutinee of the goal. *)
Ltac run_step :=
  once (match goal with
        | |- context [match ?x with _ => _ end] =>
            lazymatch x with
            | context [match _ with _ => _ end] => fail
            | _ => destruct x eqn:?
            end
        end);
  cbn beta iota zeta delta [file browser events].

(** Lays the extractor open on a given world. *)
Ltac open_extractor :=
  unfold extract_listing_info; unfold _read_price_value;
  unfold find_element, on_missing_element;
  unfold try_except, bind, emit, or_raise, ret, raise;
  cbn beta iota zeta delta [file browser events].

(** Runs the extractor on a given world, along every path. *)
Ltac run_extractor := open_extractor; repeat run_step.

(** Resolving the price looks up the two price elements only, and the
    only exception it lets through is the [ValueError] of [float]. *)
Lemma read_price_value_effects (element : Tile) (w : world) :
  exists r evs,
    _read_price_value element w = (r, add_events w evs) /\
    Forall price_query evs /\
    (forall e, r = Raise e -> e = ValueError).
Proof.
  unfold add_events, price_query.
  run_extractor;
    eexists _, _; (split; [rewrite <- ?app_assoc; reflexivity|]);
    (split;
       [cbn [app];
        repeat (apply List.Forall_cons; [first [by left | by right]|]);
        apply List.Forall_nil|]);
    intros; simplify_eq; done.
Qed.

Lemma read_price_value_result (element : Tile) (w : world) :
  (_read_price_value element w).1 = resolved_price element.
Proof. unfold resolved_price. run_extractor; reflexivity. Qed.

(** The extractor past the price: what it does once the price has
    resolved to [price_value], with text [price_text]. *)
Lemma extract_after_price (element : Tile) (w w1 : world)
    (price_text : option pystr) (price_value : option spec_float) :
  _read_price_value element w = (Ok (price_text, price_value), w1) ->
  extract_listing_info element w =
    match price_value with
    | Some v =>
        if is_zero v
        then
          match element totallink, element item_compare_title with
          | Some link_element, Some title_element =>
              (Ok (Some {| title := strip (text title_element);
                           price_text :=
                             match price_text with
                             | Some t => if truthy t then t else EURO ++ py "0.00"
                             | None => EURO ++ py "0.00"
                             end;
                           link := href link_element |}),
               add_events w1 [FindElement totallink; FindElement item_compare_title])
          | Some _, None =>
              (Raise NoSuchElementException,
               add_events w1 [FindElement totallink; FindElement item_compare_title])
          | None, _ =>
              (Raise NoSuchElementException, add_events w1 [FindElement totallink])
          end
        else (Ok None, w1)
    | None => (Ok None, w1)
    end.
Proof.
  intros Hp. unfold extract_listing_info, bind at 1. rewrite Hp.
  destruct price_value as [v|]; [|done].
  destruct (is_zero v); [|done]. unfold add_events.
  unfold find_element, bind, emit, or_raise, ret, raise.
  cbn beta iota zeta delta [file browser events].
  destruct (element totallink); [|done].
  destruct (element item_compare_title); cbn; by rewrite <- app_assoc.
Qed.

Lemma extract_price_failure (element : Tile) (w w1 : world) (e : exn) :
  _read_price_value element w = (Raise e, w1) ->
  extract_listing_info element w = (Raise e, w1).
Proof. intros Hp. unfold extract_listing_info, bind. by rewrite Hp. Qed.

Lemma price_query_not_title_or_link (evs : list event) :
  Forall price_query evs ->
  (FindElement totallink ∉ evs) /\ (FindElement item_compare_title ∉ evs).
Proof.
  intros Hall. split; intros Hin.
  all: apply (proj1 (Forall_forall _ _) Hall) in Hin as [?|?]; discriminate.
Qed.

(** C10.  The extractor resolves the price before anything else.  When
    the price is undetermined or not zero it returns no listing in the
    world left by the price resolution, in which only the two price
    elements have been looked up.  Conversely, whenever the title or link
    element has been looked up, or the lookup error is raised, the price
    had resolved to zero. *)
Theorem title_and_link_queried_only_at_zero_price (element : Tile) (w : world) :
  (forall price_text price_value w1,
     _read_price_value element w = (Ok (price_text, price_value), w1) ->
     (forall v, price_value = Some v -> is_zero v = false) ->
     extract_listing_info element w = (Ok None, w1) /\
     exists evs, w1 = add_events w evs /\ Forall price_query evs) /\
  (forall r w',
     extract_listing_info element w = (r, w') ->
     exists evs,
       w' = add_events w evs /\
       ((FindElement totallink ∈ evs \/ FindElement item_compare_title ∈ evs \/
         r = Raise NoSuchElementException) ->
        exists price_text v w1,
          _read_price_value element w = (Ok (price_text, Some v), w1) /\
          is_zero v = true)).
Proof.
  destruct (read_price_value_effects element w) as (r0 & evs0 & Hp & Hq & He).
  pose proof (price_query_not_title_or_link evs0 Hq) as [Hl Ht].
  split.
  - intros price_text price_value w1 Hp' Hnz.
    rewrite Hp in Hp'. injection Hp' as -> <-.
    rewrite (extract_after_price _ _ _ _ _ Hp).
    split; [|by exists evs0].
    destruct price_value as [v|]; [|done]. by rewrite (Hnz v eq_refl).
  - intros r w' Hx. destruct r0 as [[price_text price_value]|e].
    + rewrite (extract_after_price _ _ _ _ _ Hp) in Hx.
      destruct price_value as [v|].
      * destruct (is_zero v) eqn:Hz.
        -- assert (exists evs, w' = add_events w evs) as [evs ->].
           { destruct (element totallink), (element item_compare_title);
               injection Hx as <- <-; rewrite add_events_app; by eexists. }
           exists evs. split; [done|]. intros _.
           by exists price_text, v, (add_events w evs0).
        -- injection Hx as <- <-. exists evs0. split; [done|].
           intros [?|[?|?]]; done.
      * injection Hx as <- <-. exists evs0. split; [done|].
        intros [?|[?|?]]; done.
    + rewrite (extract_price_failure _ _ _ _ Hp) in Hx. injection Hx as <- <-.
      exists evs0. split; [done|].
      intros [?|[?|Hr]]; [done|done|].
      injection Hr as ->. by specialize (He _ eq_refl).
Qed.

(** A tile priced at 1200 euros, and a free tile without title. *)
Lemma title_and_link_queried_only_at_zero_price_witness :
  (let priced := Example.tile None (Some (EURO ++ py "1,200.00")) (py "Guitar")
                   (Some Example.A_URL) in
   exists w1, extract_listing_info priced (Example.start Missing) = (Ok None, w1)) /\
  (let untitled : Tile := fun sel =>
       match sel with
       | item_compare_title => None
       | _ => Example.free_tile (py "Guitar") (Some Example.A_URL) sel
       end in
   exists price_text v w1,
     _read_price_value untitled (Example.start Missing) = (Ok (price_text, Some v), w1) /\
     is_zero v = true).
Proof.
  split.
  - cbn zeta. eexists.
    eapply (proj1 (title_and_link_queried_only_at_zero_price _ _)).
    + vm_compute. reflexivity.
    + intros v [= <-]. vm_compute. reflexivity.
  - cbn zeta.
    match goal with |- context [_read_price_value ?t ?w] =>
      destruct (proj2 (title_and_link_queried_only_at_zero_price t w)
                  (extract_listing_info t w).1 (extract_listing_info t w).2)
        as (evs & _ & H)
    end.
    + vm_compute. reflexivity.
    + apply H. right. right. vm_compute. reflexivity.
Defined.

(** *** The price rule of the specification, where the code follows it *)

(** X19.  A hidden price field that is present, not blank and parseable
    is the price, whatever the visible text. *)
Lemma hidden_price_is_authoritative (element : Tile) (hidden : Element)
    (v : spec_float) (w : world) :
  element price_for_filter = Some hidden ->
  truthy (strip (text_content hidden)) = true ->
  float (replace (strip (text_content hidden)) (py ",") []) = Some v ->
  exists price_text w1,
    _read_price_value element w = (Ok (price_text, Some v), w1).
Proof.
  intros Hh Ht Hf. open_extractor. rewrite Hh.
  cbn beta iota zeta delta [file browser events]. rewrite Ht, Hf.
  repeat run_step; by eexists _, _.
Qed.

(** X20.  Without a hidden price field, or with a blank one, the price
    is the last token of the visible price string. *)
Lemma visible_price_is_last_token (element : Tile) (visible : Element)
    (token : pystr) (v : spec_float) (w : world) :
  match element price_for_filter with
  | Some hidden => truthy (strip (text_content hidden)) = false
  | None => True
  end ->
  element wcpbc_price = Some visible ->
  last (price_tokens (strip (text visible))) = Some token ->
  float token = Some v ->
  exists w1,
    _read_price_value element w = (Ok (Some (strip (text visible)), Some v), w1).
Proof.
  unfold price_tokens. intros Hh Hv Hl Hf.
  assert (truthy (strip (text visible)) = true) as Ht.
  { destruct (strip (text visible)); [|done]. vm_compute in Hl. done. }
  open_extractor. rewrite Hv.
  destruct (element price_for_filter) as [hidden|];
    cbn beta iota zeta delta [file browser events];
    rewrite ?Hh, Ht, Hl, Hf; by eexists.
Qed.

(** A tile is a finding exactly when its price resolves to zero: the
    extractor then goes on to the title and link, and otherwise returns
    no listing. *)
Lemma finding_iff_zero_price (element : Tile) (w w1 : world)
    (price_text : option pystr) (price_value : option spec_float) :
  _read_price_value element w = (Ok (price_text, price_value), w1) ->
  extract_listing_info element w = (Ok None, w1) <->
  ~ (exists v, price_value = Some v /\ is_zero v = true).
Proof.
  intros Hp. rewrite (extract_after_price _ _ _ _ _ Hp). split.
  - intros Hx (v & -> & Hz). rewrite Hz in Hx.
    destruct (element totallink), (element item_compare_title); discriminate.
  - intros Hn. destruct price_value as [v|]; [|done].
    destruct (is_zero v) eqn:Hz; [|done]. destruct Hn. by exists v.
Qed.

(** The three tiles of the specification's examples. *)
Example original_and_sale_price_is_a_finding :
  let element := Example.tile None (Some (EURO ++ py "1,200.00 " ++ EURO ++ py "0.00"))
                   (py "Guitar") (Some Example.A_URL) in
  resolved_price element =
    Ok (Some (EURO ++ py "1,200.00 " ++ EURO ++ py "0.00"), Some (S754_zero false)) /\
  qualifies element = true.
Proof. vm_compute. done. Qed.

Example single_price_is_not_a_finding :
  let element := Example.tile None (Some (EURO ++ py "1,200.00"))
                   (py "Guitar") (Some Example.A_URL) in
  resolved_price element =
    Ok (Some (EURO ++ py "1,200.00"), Some (Prim2SF 1200%float)) /\
  qualifies element = false.
Proof. vm_compute. done. Qed.

Example hidden_zero_is_a_finding :
  let element := Example.tile (Some (py "0")) None (py "Guitar") (Some Example.A_URL) in
  resolved_price element = Ok (None, Some (S754_zero false)) /\
  qualifies element = true.
Proof. vm_compute. done. Qed.

(** X21.  A tile without price texts is skipped: no listing, no
    exception. *)
Lemma tile_without_price_text_is_skipped (element : Tile) (w : world) :
  match element price_for_filter with
  | Some hidden => truthy (strip (text_content hidden)) = false
  | None => True
  end ->
  match element wcpbc_price with
  | Some visible => price_tokens (strip (text visible)) = []
  | None => True
  end ->
  exists w1, extract_listing_info element w = (Ok None, w1).
Proof.
  unfold price_tokens. intros Hh Hv. open_extractor.
  destruct (element price_for_filter) as [hidden|];
    cbn beta iota zeta delta [file browser events]; rewrite ?Hh;
    (destruct (element wcpbc_price) as [visible|];
     [destruct (truthy (strip (text visible)))|]);
    cbn beta iota zeta delta [file browser events]; rewrite ?Hv;
    by eexists.
Qed.

(** C2.  A tile whose hidden price field reads "N/A" and whose visible
    price is "€0.00": the hidden field is present but does not parse, so
    by the rule the price is the last visible token, 0.0, and the tile is
    a finding.  The extractor raises [ValueError] instead. *)
Theorem unparseable_hidden_price_raises (w : world) :
  let element := Example.tile (Some (py "N/A")) (Some (EURO ++ py "0.00"))
                   (py "Guitar") (Some Example.A_URL) in
  float (py "N/A") = None /\
  (float <$> last (price_tokens (EURO ++ py "0.00"))) = Some (Some (S754_zero false)) /\
  exists w1, extract_listing_info element w = (Raise ValueError, w1).
Proof.
  cbn zeta. split; [by vm_compute|]. split; [by vm_compute|].
  eexists. vm_compute. reflexivity.
Qed.

(** C6.  Two tiles for which no price can be determined: one whose only
    price element is a hidden field reading "N/A", one whose only price
    element is the visible text "Sold out".  Neither is skipped: the
    extractor raises [ValueError] on both. *)
Theorem undetermined_price_raises (w : world) :
  let hidden_only := Example.tile (Some (py "N/A")) None
                       (py "Guitar") (Some Example.A_URL) in
  let visible_only := Example.tile None (Some (py "Sold out"))
                        (py "Guitar") (Some Example.A_URL) in
  (exists w1, extract_listing_info hidden_only w = (Raise ValueError, w1)) /\
  (exists w1, extract_listing_info visible_only w = (Raise ValueError, w1)).
Proof.
  cbn zeta. split; eexists; vm_compute; reflexivity.
Qed.

(** ** The page fetcher *)

Lemma collect_load_failure (web : pystr -> Page) (url : pystr) (w : world) :
  load (web url) <> Loaded ->
  collect_free_listings_on_url web url w =
    (Ok [], visited web url w (load_failure_log url (load (web url)))).
Proof.
  intros Hl. unfold collect_free_listings_on_url, driver_get, on_load_failure, visited.
  unfold try_except, bind, emit, set_browser, print, emit, ret, raise.
  cbn beta iota zeta delta [file browser events].
  destruct (load (web url)); [done| |];
    cbn; rewrite <- ?app_assoc; reflexivity.
Qed.

Lemma scroll_loop_emits (prev_height : N) (heights : list N) :
  exists evs, forall w, scroll_loop prev_height heights w = (Ok tt, add_events w evs).
Proof.
  revert prev_height. induction heights as [|h heights IH]; intros prev_height.
  - by exists [ScrollToBottom].
  - destruct (IH h) as (evs & Hevs). cbn [scroll_loop].
    destruct (h =? prev_height)%N.
    + by exists [ScrollToBottom].
    + exists (ScrollToBottom :: evs). intros w. unfold bind, emit.
      rewrite Hevs. unfold add_events. cbn. by rewrite <- app_assoc.
Qed.

(** A page that loads but never shows the listing container: the wait
    times out and the exception leaves [collect_free_listings_on_url]. *)
Lemma collect_without_container (web : pystr -> Page) (url : pystr) (w : world) :
  load (web url) = Loaded ->
  listing_container (web url) = false ->
  collect_free_listings_on_url web url w =
    (Raise TimeoutException, visited web url w [WaitForContainer]).
Proof.
  intros Hl Hc. unfold collect_free_listings_on_url, driver_get, wait_for_listings,
    current_page, get_browser, visited.
  unfold try_except, bind, emit, set_browser, ret, raise. rewrite Hl.
  cbn. rewrite Hc. by rewrite <- app_assoc.
Qed.

(** A page that loads and shows the container: its tiles are extracted
    in order, after the wait, the scrolling and the query for tiles. *)
Lemma collect_loaded (web : pystr -> Page) (url : pystr) :
  load (web url) = Loaded ->
  listing_container (web url) = true ->
  exists evs, forall w,
    collect_free_listings_on_url web url w =
      for_each (products (web url)) [] collect_item (visited web url w evs).
Proof.
  intros Hl Hc.
  destruct (scroll_loop_emits (initial_height (web url)) (growth (web url)))
    as (evs & Hevs).
  exists (WaitForContainer :: evs ++ [FindElements]). intros w.
  unfold collect_free_listings_on_url, driver_get, wait_for_listings, scroll_page,
    find_elements, current_page, get_browser, visited.
  unfold try_except, bind, emit, set_browser, ret, raise. rewrite Hl.
  cbn. rewrite Hc, Hevs. cbn. f_equal. f_equal.
  rewrite <- !app_assoc. reflexivity.
Qed.

(** *** Extraction over the tiles of a page *)

Lemma on_missing_element_emits {A} (value : A) (e : exn) (h : M A) :
  on_missing_element value e = Some h -> only_emits h.
Proof. destruct e; intros [= <-]. apply only_emits_ret. Qed.

Lemma extract_listing_info_emits (element : Tile) :
  only_emits (extract_listing_info element).
Proof.
  unfold extract_listing_info, _read_price_value, find_element.
  emits. all: by eapply on_missing_element_emits.
Qed.

Lemma collect_item_emits (free_entries : list Listing) (item : Tile) :
  only_emits (collect_item free_entries item).
Proof.
  unfold collect_item. apply only_emits_bind; [apply extract_listing_info_emits|].
  intros [l|]; auto with emits.
Qed.

Lemma extract_listing_info_result (element : Tile) (w : world) :
  (extract_listing_info element w).1 = extracted element.
Proof. unfold extracted. run_extractor; reflexivity. Qed.

Lemma collect_item_run (free_entries : list Listing) (item : Tile) (w : world) :
  exists evs,
    collect_item free_entries item w =
      (match extracted item with
       | Ok (Some l) => Ok (free_entries ++ [l])
       | Ok None => Ok free_entries
       | Raise e => Raise e
       end, add_events w evs).
Proof.
  destruct (extract_listing_info_emits item w) as (r & evs & Hx).
  pose proof (extract_listing_info_result item w) as Hr. rewrite Hx in Hr.
  simpl in Hr. subst r. unfold collect_item, bind. rewrite Hx.
  destruct (extracted item) as [[l|]|e]; [exists evs|exists evs|exists evs]; try done.
  all: unfold ret; by rewrite ?add_events_nil.
Qed.

Lemma for_each_collect_item (items : list Tile) (free_entries : list Listing) (w : world) :
  exists evs,
    for_each items free_entries collect_item w =
      (collected items free_entries, add_events w evs).
Proof.
  revert free_entries w. induction items as [|item items IH]; intros free_entries w.
  - exists []. by rewrite add_events_nil.
  - cbn [for_each collected]. unfold bind.
    destruct (collect_item_run free_entries item w) as (evs & ->).
    destruct (extracted item) as [[l|]|e]; [| |by exists evs].
    all: edestruct IH as (evs' & ->); exists (evs ++ evs');
      by rewrite add_events_app.
Qed.

Lemma collect_run (web : pystr -> Page) (url : pystr) (w : world) :
  exists evs,
    collect_free_listings_on_url web url w =
      (page_listings (web url), visited web url w evs).
Proof.
  unfold page_listings. destruct (load (web url)) eqn:Hl.
  - destruct (listing_container (web url)) eqn:Hc.
    + destruct (collect_loaded web url Hl Hc) as (evs & ->).
      destruct (for_each_collect_item (products (web url)) [] (visited web url w evs))
        as (evs' & ->).
      exists (evs ++ evs'). unfold visited, add_events. cbn.
      by rewrite <- app_assoc.
    + rewrite (collect_without_container web url w Hl Hc). by eexists.
  - rewrite collect_load_failure by (rewrite Hl; done). rewrite Hl. by eexists.
  - rewrite collect_load_failure by (rewrite Hl; done). rewrite Hl. by eexists.
Qed.

(** ** The scan of a run *)

Lemma scan_url_run (web : pystr -> Page) (run_listings : list Listing)
    (url : pystr) (w : world) :
  exists w',
    scan_url web run_listings url w =
      (match page_listings (web url) with
       | Ok found => Ok (run_listings ++ found)
       | Raise e => Raise e
       end, w') /\
    file w' = file w.
Proof.
  unfold scan_url, bind. destruct (collect_run web url w) as (evs & ->).
  destruct (page_listings (web url)); by eexists.
Qed.

Lemma scan_page_run (web : pystr -> Page) (run_listings : list Listing)
    (page : Z) (w : world) :
  exists w',
    scan_page web run_listings page w =
      (match page_listings (web (LISTING_URL_TEMPLATE page)) with
       | Ok found => Ok (run_listings ++ found)
       | Raise e => Raise e
       end, w') /\
    file w' = file w.
Proof.
  unfold scan_page, collect_free_listings_on_page, bind.
  destruct (collect_run web (LISTING_URL_TEMPLATE page) w) as (evs & ->).
  destruct (page_listings (web (LISTING_URL_TEMPLATE page))); by eexists.
Qed.

Lemma scan_urls_run (web : pystr -> Page) (urls : list pystr)
    (run_listings : list Listing) (w : world) :
  exists w',
    for_each urls run_listings (scan_url web) w = (scanned web urls run_listings, w') /\
    file w' = file w.
Proof.
  revert run_listings w. induction urls as [|url urls IH]; intros run_listings w.
  - by exists w.
  - cbn [for_each scanned]. unfold bind.
    destruct (scan_url_run web run_listings url w) as (w1 & -> & Hf).
    destruct (page_listings (web url)) as [found|e]; [|by exists w1].
    destruct (IH (run_listings ++ found) w1) as (w2 & -> & Hf').
    exists w2. split; [done|congruence].
Qed.

Lemma scan_pages_run (web : pystr -> Page) (pages : list Z)
    (run_listings : list Listing) (w : world) :
  exists w',
    for_each pages run_listings (scan_page web) w =
      (scanned web (LISTING_URL_TEMPLATE <$> pages) run_listings, w') /\
    file w' = file w.
Proof.
  revert run_listings w. induction pages as [|page pages IH]; intros run_listings w.
  - by exists w.
  - cbn [for_each scanned fmap list_fmap]. unfold bind.
    destruct (scan_page_run web run_listings page w) as (w1 & -> & Hf).
    destruct (page_listings (web (LISTING_URL_TEMPLATE page))) as [found|e];
      [|by exists w1].
    destruct (IH (run_listings ++ found) w1) as (w2 & -> & Hf').
    exists w2. split; [done|congruence].
Qed.

Lemma scanned_app (web : pystr -> Page) (urls1 urls2 : list pystr)
    (run_listings : list Listing) :
  scanned web (urls1 ++ urls2) run_listings =
    match scanned web urls1 run_listings with
    | Ok found => scanned web urls2 found
    | Raise e => Raise e
    end.
Proof.
  revert run_listings. induction urls1 as [|url urls1 IH]; intros run_listings; [done|].
  cbn [app scanned]. destruct (page_listings (web url)); [apply IH|done].
Qed.

(** The scanning loops of [main] leave the results file alone and
    return the listings of the scanned URLs, or raise the first
    exception. *)
Lemma main_scan_run (web : pystr -> Page) (w : world) :
  exists w',
    main_scan web w = (scanned web scanned_urls [], w') /\ file w' = file w.
Proof.
  unfold main_scan, scanned_urls, bind. rewrite scanned_app.
  destruct (scan_pages_run web PAGE_RANGE [] w) as (w1 & -> & Hf).
  destruct (scanned web (LISTING_URL_TEMPLATE <$> PAGE_RANGE) []) as [found|e];
    [|by exists w1].
  destruct (scan_urls_run web STATIC_LISTING_URLS found w1) as (w2 & -> & Hf').
  exists w2. split; [done|congruence].
Qed.

(** [main] in terms of the scan: a failed scan is re-raised after the
    browser has been closed; otherwise the merge runs on its listings. *)
Lemma main_run (web : pystr -> Page) (environ : pystr -> option pystr)
    (smtp_failure : smtp_step -> bool)
    (message_rejected : EmailMessage -> bool) (w : world) :
  exists w1,
    file w1 = file w /\
    main web environ smtp_failure message_rejected w =
      match scanned web scanned_urls [] with
      | Ok run_listings =>
          try_finally (main_merge environ smtp_failure message_rejected run_listings) (emit Quit) w1
      | Raise e => (Raise e, add_events w1 [Quit])
      end.
Proof.
  destruct (main_scan_run web w) as (w1 & Hs & Hf). exists w1. split; [done|].
  unfold main, try_finally, bind. rewrite Hs.
  by destruct (scanned web scanned_urls []).
Qed.

(** X22.  When [driver.get(url)] fails, by timeout or by any other browser
    error, the fetch prints a line, returns no listing for that URL and
    leaves the results file alone; both scanning loops of [main] then go
    on with the remaining pages and URLs. *)
Lemma navigation_failure_is_skipped (web : pystr -> Page) (url : pystr) (w : world) :
  load (web url) <> Loaded ->
  let w' := visited web url w (load_failure_log url (load (web url))) in
  collect_free_listings_on_url web url w = (Ok [], w') /\
  (exists m, Print m ∈ load_failure_log url (load (web url))) /\
  file w' = file w /\
  (forall run_listings urls,
     for_each (url :: urls) run_listings (scan_url web) w =
     for_each urls run_listings (scan_url web)
       (add_events w' [Print (UrlScanned url 0)])) /\
  (forall run_listings page pages,
     LISTING_URL_TEMPLATE page = url ->
     for_each (page :: pages) run_listings (scan_page web) w =
     for_each pages run_listings (scan_page web)
       (add_events w' [Print (PageScanned page 0)])).
Proof.
  intros Hl w'. pose proof (collect_load_failure web url w Hl) as Hc. fold w' in Hc.
  split; [done|]. split.
  { destruct (load (web url)); [done| |]; eexists; by left. }
  split; [done|]. split.
  - intros run_listings urls. cbn [for_each]. unfold bind at 1.
    unfold scan_url at 1, bind. rewrite Hc. unfold print, emit, ret. cbn.
    by rewrite app_nil_r.
  - intros run_listings page pages <-. cbn [for_each]. unfold bind at 1.
    unfold scan_page at 1, collect_free_listings_on_page, bind. rewrite Hc.
    unfold print, emit, ret. cbn. by rewrite app_nil_r.
Qed.

(** C5.  A shop whose first page times out in [driver.get], whose second
    page loads but never shows the listing container, and whose other
    pages each show a free tile.  The first failure is recovered: a line
    is printed, the page counts no listing and the scan goes on.  The
    second is not: the timeout of the wait leaves
    [collect_free_listings_on_url] and [main]; no further page is
    scanned and nothing is saved. *)
Theorem wait_timeout_ends_the_run :
  let slow : Page :=
    {| load := LoadTimeout; listing_container := false; initial_height := 0;
       growth := []; products := [] |} in
  let bare : Page :=
    {| load := Loaded; listing_container := false; initial_height := 900;
       growth := []; products := [] |} in
  let web := fun url : pystr =>
    if bool_decide (url = LISTING_URL_TEMPLATE 1) then slow
    else if bool_decide (url = LISTING_URL_TEMPLATE 2) then bare
    else Example.listing_page [Example.free_tile (py "C") (Some Example.C_URL)] in
  let w := Example.start (Stored (JList [])) in
  collect_free_listings_on_url web (LISTING_URL_TEMPLATE 1) w =
    (Ok [], visited web (LISTING_URL_TEMPLATE 1) w
              [Print (TimedOutLoading (LISTING_URL_TEMPLATE 1)); WindowStop]) /\
  collect_free_listings_on_url web (LISTING_URL_TEMPLATE 2) w =
    (Raise TimeoutException,
     visited web (LISTING_URL_TEMPLATE 2) w [WaitForContainer]) /\
  main web Example.mail_environ Example.never_fails Example.never_rejected w =
    (Raise TimeoutException,
     {| file := Stored (JList []);
        browser := Some bare;
        events := [ Get (LISTING_URL_TEMPLATE 1);
                    Print (TimedOutLoading (LISTING_URL_TEMPLATE 1));
                    WindowStop;
                    Print (PageScanned 1 0);
                    Get (LISTING_URL_TEMPLATE 2);
                    WaitForContainer;
                    Quit ] |}).
Proof. vm_compute. done. Qed.

(** ** Computations that return *)

Lemma returns_ret {A} (a : A) : returns (ret a).
Proof. intros w. by exists a, w. Qed.

Lemma returns_emit (e : event) : returns (emit e).
Proof. intros w. by eexists _, _. Qed.

Lemma returns_bind {A B} (m : M A) (k : A -> M B) :
  returns m -> (forall a, returns (k a)) -> returns (bind m k).
Proof.
  intros Hm Hk w. unfold bind. destruct (Hm w) as (a & w1 & ->). apply Hk.
Qed.

Lemma returns_for_each {A B} (xs : list A) (acc : B) (body : B -> A -> M B) :
  (forall acc x, x ∈ xs -> returns (body acc x)) -> returns (for_each xs acc body).
Proof.
  revert acc. induction xs as [|x xs IH]; intros acc Hb; cbn [for_each].
  - apply returns_ret.
  - apply returns_bind; [apply Hb; by left|].
    intros acc'. apply IH. intros acc'' y Hy. apply Hb. by right.
Qed.

#[local] Hint Resolve returns_ret returns_emit : emits.

(** Proves [returns] for a program that raises nowhere. *)
Ltac returns :=
  repeat first
    [ progress intros
    | apply returns_bind
    | solve [auto with emits]
    | progress unfold print
    | match goal with
      | |- returns (match ?x with _ => _ end) => destruct x eqn:?
      end ].

(** With a port that parses and a message that the [email] package
    accepts, the notifier returns, whatever else the environment holds
    and whatever the SMTP server does. *)
Lemma send_email_notification_returns (environ : pystr -> option pystr)
    (smtp_failure : smtp_step -> bool)
    (message_rejected : EmailMessage -> bool) (listings : list dict) (p : Z) :
  int (getenv_or environ (py "EMAIL_PORT") (py "587")) = Some p ->
  (forall msg, message_rejected msg = false) ->
  returns (send_email_notification environ smtp_failure message_rejected listings).
Proof.
  intros Hp Hm. unfold send_email_notification, get_email_settings, smtp_session, smtp.
  rewrite Hp. cbn [or_raise]. returns.
  all: match goal with
       | H : _ = true |- _ => rewrite Hm in H; discriminate
       end.
Qed.

Lemma persist_and_notify_returns (environ : pystr -> option pystr)
    (smtp_failure : smtp_step -> bool)
    (message_rejected : EmailMessage -> bool) (entries new : list dict) (p : Z)
    (w : world) :
  int (getenv_or environ (py "EMAIL_PORT") (py "587")) = Some p ->
  (forall msg, message_rejected msg = false) ->
  writable (file w) = true ->
  exists a w',
    persist_and_notify environ smtp_failure message_rejected entries new w = (Ok a, w').
Proof.
  intros Hp Hm Hw.
  assert (returns (print (NewEntries new) ;;
                   match new with
                   | [] => print NoNewListings
                   | _ :: _ =>
                       send_email_notification environ smtp_failure message_rejected new
                   end)) as Hr.
  { apply returns_bind; [unfold print; auto with emits|].
    intros _. destruct new; [unfold print; auto with emits|].
    by eapply send_email_notification_returns. }
  unfold persist_and_notify. unfold bind at 1.
  rewrite save_results_eq by done. apply Hr.
Qed.

(** ** Missing title or link *)

(** The extractor's result from the resolved price and the title and
    link elements. *)
Lemma extracted_eq (element : Tile) :
  extracted element =
    match resolved_price element with
    | Ok (price_text, Some v) =>
        if is_zero v
        then
          match element totallink, element item_compare_title with
          | Some link_element, Some title_element =>
              Ok (Some {| title := strip (text title_element);
                          price_text :=
                            match price_text with
                            | Some t => if truthy t then t else EURO ++ py "0.00"
                            | None => EURO ++ py "0.00"
                            end;
                          link := href link_element |})
          | _, _ => Raise NoSuchElementException
          end
        else Ok None
    | Ok (_, None) => Ok None
    | Raise e => Raise e
    end.
Proof.
  unfold extracted, resolved_price.
  set (w := {| file := Missing; browser := None; events := [] |}).
  destruct (_read_price_value element w) as [[[price_text price_value]|e] w1] eqn:Hp.
  - rewrite (extract_after_price _ _ _ _ _ Hp). cbn [fst].
    destruct price_value as [v|]; [|done]. destruct (is_zero v); [|done].
    by destruct (element totallink), (element item_compare_title).
  - by rewrite (extract_price_failure _ _ _ _ Hp).
Qed.




Lemma collected_returns (items : list Tile) :
  Forall extractable items ->
  forall free_entries, exists found, collected items free_entries = Ok found.
Proof.
  induction 1 as [|item items [listing Hl] _ IH]; intros free_entries; cbn [collected].
  - by eexists.
  - rewrite Hl. destruct listing; apply IH.
Qed.


Lemma scanned_returns (web : pystr -> Page) (urls : list pystr) :
  (forall url, url ∈ urls -> exists found, page_listings (web url) = Ok found) ->
  forall run_listings, exists found, scanned web urls run_listings = Ok found.
Proof.
  induction urls as [|url urls IH]; intros Hp run_listings; cbn [scanned].
  - by eexists.
  - destruct (Hp url) as (found & ->); [by left|].
    apply IH. intros url' Hin. apply Hp. by right.
Qed.

Lemma sound_tile_extractable (element : Tile) : sound_tile element -> extractable element.
Proof.
  intros [[[price_text price_value] Hp] Hq]. unfold extractable, qualifies in *.
  rewrite extracted_eq. rewrite Hp in *.
  destruct price_value as [v|]; [|by eexists].
  destruct (is_zero v); [|by eexists].
  destruct (Hq eq_refl) as [[l ->] [t ->]]. by eexists.
Qed.

Lemma sound_page_listings (p : Page) :
  sound_page p -> exists found, page_listings p = Ok found.
Proof.
  unfold sound_page, page_listings. intros Hs.
  destruct (load p); [|by eexists..].
  destruct (Hs eq_refl) as [-> Ht]. apply collected_returns.
  eapply Forall_impl; [exact Ht|]. apply sound_tile_extractable.
Qed.


(** Among the failures that the embedding covers, a run meets none that
    is left unrecovered when no scanned page has a defect, the results
    file loads, [EMAIL_PORT] is unset or an integer and the [email]
    package accepts the message: [main] then returns, whatever
    navigation failures, store contents, missing settings or SMTP
    failures occur. *)
Lemma defect_free_run_returns (web : pystr -> Page)
    (environ : pystr -> option pystr) (smtp_failure : smtp_step -> bool)
    (message_rejected : EmailMessage -> bool) (w : world) :
  (forall url, url ∈ scanned_urls -> sound_page (web url)) ->
  loadable (file w) = true ->
  is_Some (int (getenv_or environ (py "EMAIL_PORT") (py "587"))) ->
  (forall msg, message_rejected msg = false) ->
  exists w', main web environ smtp_failure message_rejected w = (Ok tt, w').
Proof.
  intros Hs Hf [p Hp] Hm.
  destruct (scanned_returns web scanned_urls) with (run_listings := @nil Listing)
    as (run_listings & Hr).
  { intros url Hin. by apply sound_page_listings, Hs. }
  destruct (main_run web environ smtp_failure message_rejected w) as (w1 & Hf1 & ->).
  rewrite Hr. rewrite <- Hf1 in Hf.
  destruct (load_existing_results_eq w1 Hf) as (evs & Hload).
  destruct (spec_load (file w1)) as [stored known].
  unfold try_finally. rewrite (main_merge_eq _ _ _ _ _ _ _ _ Hload).
  edestruct (persist_and_notify_returns environ smtp_failure message_rejected)
    as ([] & w2 & ->); [exact Hp|exact Hm|by apply loadable_writable|].
  by eexists.
Qed.



(** ** The notifier without configuration *)

(** With [EMAIL_PORT] set to a text that is not an integer and nothing
    else set, the notifier raises [ValueError] although the credentials
    are missing. *)
Lemma unconfigured_notifier_raises_on_bad_port :
  let environ := fun name : pystr =>
    if bool_decide (name = py "EMAIL_PORT") then Some (py "smtp") else None in
  environ (py "EMAIL_USER") = None /\
  environ (py "EMAIL_PASSWORD") = None /\
  exists w',
    send_email_notification environ Example.never_fails Example.never_rejected
      [Example.entry (py "C") Example.C_URL] (Example.start Missing) =
    (Raise ValueError, w').
Proof. cbn zeta. split; [done|]. split; [done|]. eexists. vm_compute. reflexivity. Qed.

(** C9, amended.  When [EMAIL_PORT] is unset or holds an integer, and
    [EMAIL_USER], [EMAIL_PASSWORD] or [EMAIL_TO] is unset or empty, the
    notifier returns normally for every list of entries, having printed
    one line and attempted no SMTP step. *)
Theorem notification_skipped_when_unconfigured (environ : pystr -> option pystr)
    (smtp_failure : smtp_step -> bool)
    (message_rejected : EmailMessage -> bool) (listings : list dict) (w : world) :
  is_Some (int (getenv_or environ (py "EMAIL_PORT") (py "587"))) ->
  unset_or_empty (environ (py "EMAIL_USER")) \/
  unset_or_empty (environ (py "EMAIL_PASSWORD")) \/
  unset_or_empty (environ (py "EMAIL_TO")) ->
  exists m,
    send_email_notification environ smtp_failure message_rejected listings w =
      (Ok tt, add_events w [Print m]) /\
    (m = CredentialsMissing \/ m = RecipientMissing).
Proof.
  intros [p Hp] Hu. unfold send_email_notification, get_email_settings.
  rewrite Hp. unfold unset_or_empty in Hu.
  unfold bind, or_raise, print, emit, ret, add_events.
  cbn beta iota zeta delta [file browser events].
  destruct (environ (py "EMAIL_USER")) as [user|];
    [|exists CredentialsMissing; split; [done|by left]].
  destruct (environ (py "EMAIL_PASSWORD")) as [password|];
    [|exists CredentialsMissing; split; [done|by left]].
  destruct (truthy user) eqn:Htu; cbn [negb orb];
    [|exists CredentialsMissing; split; [done|by left]].
  destruct (truthy password) eqn:Htp; cbn [negb orb];
    [|exists CredentialsMissing; split; [done|by left]].
  destruct (environ (py "EMAIL_TO")) as [recipient|];
    [|exists RecipientMissing; split; [done|by right]].
  destruct (truthy recipient) eqn:Htr;
    [|exists RecipientMissing; split; [done|by right]].
  destruct Hu as [?|[?|?]]; discriminate.
Qed.

(** Nothing is set in the environment. *)
Lemma notification_skipped_when_unconfigured_witness :
  exists m,
    send_email_notification Example.no_environ Example.never_fails Example.never_rejected
      [Example.entry (py "C") Example.C_URL] (Example.start Missing) =
      (Ok tt, add_events (Example.start Missing) [Print m]) /\
    (m = CredentialsMissing \/ m = RecipientMissing).
Proof.
  apply (notification_skipped_when_unconfigured
           Example.no_environ Example.never_fails Example.never_rejected).
  - by eexists.
  - left. exact I.
Defined.

(** ** Two runs in succession *)

Lemma keep_first_all {A K : Type} `{EqDecision K} (key : A -> K)
    (before : list K) (xs : list A) :
  NoDup (key <$> xs) ->
  (forall x, x ∈ xs -> key x ∉ before) ->
  keep_first key before xs = xs.
Proof.
  revert before. induction xs as [|x xs IH]; intros before Hnd Hb; [done|].
  rewrite fmap_cons in Hnd. apply NoDup_cons in Hnd as [Hx Hnd]. cbn [keep_first].
  rewrite bool_decide_eq_false_2 by (apply Hb; by left). f_equal.
  apply IH; [done|]. intros y Hy [Heq|Hin]%elem_of_cons.
  - apply Hx. rewrite <- Heq. by apply list_elem_of_fmap_2.
  - apply (Hb y); [by right|done].
Qed.

Lemma valid_entry_has_link (fields : dict) (s : pystr) :
  link_of fields = JStr s -> truthy s = true ->
  valid_entry (JDict fields) = Some (s, fields).
Proof. intros Hl Ht. unfold valid_entry. by rewrite Hl, Ht. Qed.

Lemma loaded_entries_have_link (f : results_file) :
  Forall entry_has_link (spec_load f).1.
Proof.
  unfold spec_load. destruct f as [| |[| | | | |data|]| |]; try apply Forall_nil_2.
  cbn [fst]. apply Forall_forall. intros fields Hin.
  apply list_elem_of_fmap in Hin as ([s fields'] & -> & Hin).
  apply keep_first_elem in Hin as [Hin _].
  apply list_elem_of_omap in Hin as (entry & _ & Hv).
  exists s. split; [by apply valid_entry_link in Hv|].
  unfold valid_entry in Hv. destruct entry as [| | | | | |fields'']; try done.
  destruct (link_of fields'') as [| | | |s'| |]; try done.
  destruct (truthy s') eqn:Ht; [|done]. by injection Hv as <- _.
Qed.

(** A store whose entries all have a link, no two the same, loads back
    unchanged, and every one of its links is known afterwards. *)
Lemma spec_load_saved (entries : list dict) :
  Forall entry_has_link entries ->
  NoDup (link_of <$> entries) ->
  (spec_load (Stored (JList (List.map JDict entries)))).1 = entries /\
  (forall s, JStr s ∈ link_of <$> entries ->
     Some s ∈ (spec_load (Stored (JList (List.map JDict entries)))).2).
Proof.
  intros Hv Hnd. cbn [spec_load fst snd].
  assert (exists keyed : list (pystr * dict),
            omap valid_entry (List.map JDict entries) = keyed /\
            snd <$> keyed = entries /\
            JStr <$> (fst <$> keyed) = link_of <$> entries) as (keyed & -> & Hs & Hk).
  { clear Hnd. induction Hv as [|fields entries (s & Hl & Ht) _ (keyed & IH & Hs & Hk)].
    - by exists [].
    - exists ((s, fields) :: keyed). cbn [List.map omap list_omap].
      rewrite (valid_entry_has_link fields s Hl Ht), IH. cbn.
      by rewrite Hs, Hk, Hl. }
  rewrite <- Hk in Hnd. apply (NoDup_fmap_1 JStr) in Hnd.
  rewrite keep_first_all by (done || intros ? _ Hin; by apply elem_of_nil in Hin).
  split; [done|]. intros s Hin. rewrite <- Hk in Hin.
  apply (list_elem_of_fmap_inj JStr) in Hin.
  apply elem_of_list_to_set. rewrite list_fmap_compose.
  by apply list_elem_of_fmap_2.
Qed.

(** The links of the run are all known once the run has been merged. *)
Lemma merged_links_known (f : results_file) (run_listings : list Listing) (l : Listing) :
  Forall has_link run_listings ->
  l ∈ run_listings ->
  json_of_link (link l) ∈
    link_of <$> ((spec_load f).1 ++
                 (to_dict <$> spec_new_listings (spec_load f).2 run_listings)).
Proof.
  intros Hv Hin. rewrite fmap_app. apply elem_of_app.
  destruct (decide (link l ∈ (spec_load f).2)) as [Hk|Hk].
  - left. destruct (proj1 (Forall_forall _ _) Hv l Hin) as (s & Hs & _).
    rewrite Hs in *. unfold spec_load in *.
    destruct f as [| |[| | | | |data|]| |]; cbn [fst snd] in *;
      try by apply not_elem_of_empty in Hk.
    rewrite valid_entries_link. cbn [json_of_link]. apply list_elem_of_fmap_2.
    apply elem_of_list_to_set in Hk. rewrite list_fmap_compose in Hk.
    apply list_elem_of_fmap in Hk as (s' & [= <-] & Hk).
    apply list_elem_of_fmap in Hk as (x & -> & Hx).
    apply keep_first_complete; [done|]. intros Hn. by apply elem_of_nil in Hn.
  - right. rewrite <- list_fmap_compose.
    rewrite (list_fmap_ext (link_of ∘ to_dict) (json_of_link ∘ link))
      by (intros; apply link_of_to_dict).
    rewrite list_fmap_compose. apply list_elem_of_fmap_2.
    apply keep_first_complete.
    + by apply list_elem_of_filter.
    + intros Hn. by apply elem_of_nil in Hn.
Qed.

(** When every listing of the run has a non-empty string link, a second
    merge of the same listings, started on the file left by the first,
    finds nothing new and writes the same entries back. *)
Lemma second_run_finds_nothing_new (environ : pystr -> option pystr)
    (smtp_failure : smtp_step -> bool)
    (message_rejected : EmailMessage -> bool)
    (run_listings : list Listing) (w : world) :
  loadable (file w) = true ->
  Forall has_link run_listings ->
  exists entries evs,
    file (main_merge environ smtp_failure message_rejected run_listings w).2 =
      Stored (JList (List.map JDict entries)) /\
    main_merge environ smtp_failure message_rejected run_listings
      (next_run (main_merge environ smtp_failure message_rejected run_listings w).2) =
    persist_and_notify environ smtp_failure message_rejected entries []
      (add_events
         (next_run (main_merge environ smtp_failure message_rejected run_listings w).2)
         evs).
Proof.
  intros Hf Hv.
  destruct (load_existing_results_eq w Hf) as (evs0 & Hload).
  pose proof (merged_links_NoDup (file w) run_listings) as [_ Hnd].
  pose proof (loaded_entries_have_link (file w)) as Hstored.
  pose proof (fun l => merged_links_known (file w) run_listings l Hv) as Hknown.
  destruct (spec_load (file w)) as [stored known]. cbn [fst snd] in *.
  rewrite (main_merge_eq _ _ _ _ _ _ _ _ Hload).
  set (new := to_dict <$> spec_new_listings known run_listings) in *.
  destruct (persist_and_notify_file environ smtp_failure message_rejected
              (stored ++ new) new (add_events w evs0) (loadable_writable _ Hf))
    as (r & evs' & ->).
  cbn [snd]. unfold next_run. cbn [file].
  set (w1 := Example.start (Stored (JList (List.map JDict (stored ++ new))))).
  assert (Forall entry_has_link (stored ++ new)) as Hall.
  { apply Forall_app. split; [done|]. unfold new. apply Forall_forall.
    intros d Hd. apply list_elem_of_fmap in Hd as (l & -> & Hl).
    apply keep_first_elem in Hl as [Hl _]. apply list_elem_of_filter in Hl as [_ Hl].
    destruct (proj1 (Forall_forall _ _) Hv l Hl) as (s & Hs & Ht).
    exists s. by rewrite link_of_to_dict, Hs. }
  destruct (spec_load_saved (stored ++ new) Hall Hnd) as [Hback Hk].
  destruct (load_existing_results_eq w1 eq_refl) as (evs1 & Hload1).
  exists (stored ++ new), evs1. split; [done|].
  change (file w1) with (Stored (JList (List.map JDict (stored ++ new)))) in Hload1.
  destruct (spec_load (Stored (JList (List.map JDict (stored ++ new)))))
    as [stored1 known1]. cbn [fst snd] in *. subst stored1.
  rewrite (main_merge_eq _ _ _ _ _ _ _ _ Hload1).
  assert (spec_new_listings known1 run_listings = []) as ->.
  { unfold spec_new_listings.
    assert (filter (fun l => link l ∉ known1) run_listings = []) as ->; [|done].
    apply elem_of_nil_inv. intros l [Hn Hl]%list_elem_of_filter. apply Hn.
    destruct (proj1 (Forall_forall _ _) Hv l Hl) as (s & Hs & _).
    rewrite Hs. apply Hk. specialize (Hknown l Hl). by rewrite Hs in Hknown. }
  cbn [fmap list_fmap]. by rewrite app_nil_r.
Qed.

(** C8.  A shop whose first page shows one free tile whose link anchor
    has no [href] attribute (or an empty one).  The first run stores and
    reports the listing; the second run, over the same pages, reports it
    again as new and sends a second message: the entry saved by the first
    run is dropped on loading, for want of a non-empty string link. *)
Theorem listing_without_link_is_new_on_every_run :
  let runs (target : option pystr) :=
    let web := Example.shop [Example.free_tile (py "Guitar") target] in
    let first := main web Example.mail_environ Example.never_fails Example.never_rejected
                   (Example.start Missing) in
    let second := main web Example.mail_environ Example.never_fails Example.never_rejected
                    (next_run first.2) in
    (first, second) in
  let reported (target : json) :=
    [[ [(py "title", JStr (py "Guitar")); (py "price", JStr Example.FREE);
        (py "link", target)] ]] in
  (let '(first, second) := runs None in
   first.1 = Ok tt /\ second.1 = Ok tt /\
   Example.printed_new_entries (events first.2) = reported JNull /\
   Example.printed_new_entries (events second.2) = reported JNull /\
   length (Example.sent_messages (events second.2)) = 1%nat) /\
  (let '(first, second) := runs (Some []) in
   first.1 = Ok tt /\ second.1 = Ok tt /\
   Example.printed_new_entries (events first.2) = reported (JStr []) /\
   Example.printed_new_entries (events second.2) = reported (JStr []) /\
   length (Example.sent_messages (events second.2)) = 1%nat).
Proof. vm_compute. done. Qed.

(** * Further properties of the code *)

(** ** The result store: loading, saving, loading again *)

(** A results file that holds a list is loaded without a line of output. *)
Lemma load_stored_list (w : world) (data : list json) :
  file w = Stored (JList data) ->
  load_existing_results w = (Ok (spec_load (file w)), w).
Proof.
  intros Hf. unfold load_existing_results, bind, get_file. rewrite Hf.
  unfold spec_load, ret. f_equal. f_equal.
  rewrite (load_loop data [] ∅ []); [f_equal; set_solver|].
  intros l. set_solver.
Qed.

Lemma spec_load_links (f : results_file) (k : option pystr) :
  k ∈ (spec_load f).2 <-> json_of_link k ∈ link_of <$> (spec_load f).1.
Proof.
  unfold spec_load.
  destruct f as [| |[| | | | |data|]| |]; cbn [fst snd];
    try (rewrite fmap_nil; split; intros Hk;
         [by apply not_elem_of_empty in Hk | by apply elem_of_nil in Hk]).
  rewrite valid_entries_link, elem_of_list_to_set, list_fmap_compose.
  destruct k as [s|]; cbn [json_of_link].
  - split; intros Hk.
    + apply list_elem_of_fmap in Hk as (s' & [= <-] & Hk).
      apply list_elem_of_fmap in Hk as (x & -> & Hx). apply list_elem_of_fmap_2.
      apply keep_first_complete; [done|]. intros Hn. by apply elem_of_nil in Hn.
    + apply list_elem_of_fmap in Hk as (s' & [= <-] & Hk).
      apply list_elem_of_fmap in Hk as (x & -> & Hx).
      apply keep_first_elem in Hx as [Hx _].
      by do 2 apply list_elem_of_fmap_2.
  - split; intros Hk; apply list_elem_of_fmap in Hk as (? & ? & ?); done.
Qed.

Lemma valid_entries_sublist (data : list json) :
  sublist (JDict <$> (snd <$> omap valid_entry data)) data.
Proof.
  induction data as [|entry data IH]; [constructor|].
  cbn [omap list_omap]. destruct (valid_entry entry) as [[s fields]|] eqn:Hv.
  - assert (entry = JDict fields) as ->.
    { unfold valid_entry in Hv. destruct entry as [| | | | | |fields']; try done.
      destruct (link_of fields') as [| | | |s'| |]; try done.
      destruct (truthy s'); [|done]. by injection Hv as _ <-. }
    cbn. by apply sublist_skip.
  - by apply sublist_cons.
Qed.





(** Entries with non-empty string links, no two the same, load back as
    they were saved, without output. *)
Lemma load_after_save (entries : list dict) (w : world) :
  writable (file w) = true ->
  Forall entry_has_link entries ->
  NoDup (link_of <$> entries) ->
  exists known,
    load_existing_results (save_results entries w).2 =
      (Ok (entries, known), (save_results entries w).2) /\
    forall k, k ∈ known <-> json_of_link k ∈ link_of <$> entries.
Proof.
  intros Hw Hv Hnd. rewrite save_results_eq by done. cbn [snd].
  set (w1 := {| file := _ |}).
  rewrite (load_stored_list w1 (List.map JDict entries)) by done.
  pose proof (spec_load_links (file w1)) as Hk.
  destruct (spec_load_saved entries Hv Hnd) as [Hback _].
  change (file w1) with (Stored (JList (List.map JDict entries))) in *.
  destruct (spec_load (Stored (JList (List.map JDict entries)))) as [stored known].
  cbn [fst snd] in *. subst stored. by exists known.
Qed.

(** X1.  The two results of [load_existing_results] agree, for every
    store that loads: the set of known links is exactly the set of the
    [link] fields of the entries returned.  In particular it never holds
    [None]. *)
Theorem loaded_links_are_the_links_of_the_entries (w : world) :
  loadable (file w) = true ->
  exists stored known evs,
    load_existing_results w = (Ok (stored, known), add_events w evs) /\
    (forall k, k ∈ known <-> json_of_link k ∈ link_of <$> stored) /\
    None ∉ known.
Proof.
  intros Hf.
  destruct (load_existing_results_eq w Hf) as (evs & Hload).
  pose proof (spec_load_links (file w)) as Hk.
  pose proof (loaded_entries_have_link (file w)) as Hl.
  destruct (spec_load (file w)) as [stored known]. cbn [fst snd] in Hk, Hl.
  exists stored, known, evs. split; [done|]. split; [done|].
  intros Hn. apply Hk in Hn. apply list_elem_of_fmap in Hn as (d & Hd & Hin).
  destruct (proj1 (Forall_forall _ _) Hl d Hin) as (s & Hs & _).
  cbn [json_of_link] in Hd. congruence.
Qed.

Lemma loaded_links_are_the_links_of_the_entries_witness :
  let w := Example.start
             (Stored (JList [ JDict (Example.entry (py "A") Example.A_URL);
                              JDict (Example.entry (py "A again") Example.A_URL);
                              JDict [(py "link", JNull)] ])) in
  exists stored known evs,
    load_existing_results w = (Ok (stored, known), add_events w evs) /\
    (forall k, k ∈ known <-> json_of_link k ∈ link_of <$> stored) /\
    None ∉ known.
Proof.
  intros w. apply (loaded_links_are_the_links_of_the_entries w). reflexivity.
Defined.

(** X2.  Loading neither invents nor reorders entries: the entries
    returned by [load_existing_results], for every store that loads, are
    entries of the file, in the order of the file. *)
Theorem loaded_entries_keep_the_order_of_the_file (w : world) :
  loadable (file w) = true ->
  exists stored known evs,
    load_existing_results w = (Ok (stored, known), add_events w evs) /\
    sublist (JDict <$> stored) (file_entries (file w)).
Proof.
  intros Hf.
  destruct (load_existing_results_eq w Hf) as (evs & Hload).
  exists (spec_load (file w)).1, (spec_load (file w)).2, evs.
  split; [by rewrite <- surjective_pairing|].
  unfold spec_load, file_entries.
  destruct (file w) as [| |[| | | | |data|]| |]; cbn [fst]; try constructor.
  transitivity (JDict <$> (snd <$> omap valid_entry data));
    [|apply valid_entries_sublist].
  do 2 apply fmap_sublist. apply keep_first_sublist.
Qed.

Lemma loaded_entries_keep_the_order_of_the_file_witness :
  let w := Example.start
             (Stored (JList [ JDict (Example.entry (py "A") Example.A_URL);
                              JStr Example.C_URL;
                              JDict (Example.entry (py "B") Example.B_URL) ])) in
  exists stored known evs,
    load_existing_results w = (Ok (stored, known), add_events w evs) /\
    sublist (JDict <$> stored) (file_entries (file w)).
Proof.
  intros w. apply (loaded_entries_keep_the_order_of_the_file w). reflexivity.
Defined.

(** X3.  Round trip of the store.  Entries whose links are non-empty
    strings, no two the same, and that [save_results] wrote (the path
    being within reach) are returned by [load_existing_results] exactly
    as [save_results] was given them, with their links as the known
    links and without a line of output. *)
Theorem saved_entries_load_back (entries : list dict) (w : world) :
  writable (file w) = true ->
  Forall entry_has_link entries ->
  NoDup (link_of <$> entries) ->
  exists known,
    load_existing_results (save_results entries w).2 =
      (Ok (entries, known), (save_results entries w).2) /\
    forall k, k ∈ known <-> json_of_link k ∈ link_of <$> entries.
Proof. apply load_after_save. Qed.

Lemma saved_entries_load_back_witness :
  let entries := [ Example.entry (py "A") Example.A_URL;
                   Example.entry (py "B") Example.B_URL ] in
  exists known,
    load_existing_results (save_results entries (Example.start Missing)).2 =
      (Ok (entries, known), (save_results entries (Example.start Missing)).2) /\
    forall k, k ∈ known <-> json_of_link k ∈ link_of <$> entries.
Proof.
  apply (saved_entries_load_back
           [ Example.entry (py "A") Example.A_URL;
             Example.entry (py "B") Example.B_URL ] (Example.start Missing)).
  - reflexivity.
  - repeat (apply List.Forall_cons; [eexists; split; reflexivity|]).
    apply List.Forall_nil.
  - vm_compute.
    repeat (apply NoDup_cons; split;
            [intros Hn;
             repeat (apply elem_of_cons in Hn as [Hn|Hn]; [discriminate Hn|]);
             by apply elem_of_nil in Hn|]).
    apply NoDup_nil_2.
Defined.

(** X4.  What [load_existing_results] returns is stable: saved with
    [save_results] on a path within reach and loaded again, it comes
    back unchanged, entries and known links, whatever the store that
    loads held at first. *)
Theorem loaded_entries_are_stable (w w' : world) :
  loadable (file w) = true ->
  writable (file w') = true ->
  exists stored known evs,
    load_existing_results w = (Ok (stored, known), add_events w evs) /\
    load_existing_results (save_results stored w').2 =
      (Ok (stored, known), (save_results stored w').2).
Proof.
  intros Hf Hw.
  destruct (load_existing_results_eq w Hf) as (evs & Hload).
  pose proof (spec_load_links (file w)) as Hk.
  pose proof (loaded_entries_have_link (file w)) as Hv.
  pose proof (merged_links_NoDup (file w) []) as [Hnd _].
  destruct (spec_load (file w)) as [stored known]. cbn [fst snd] in *.
  exists stored, known, evs. split; [done|].
  destruct (load_after_save stored w' Hw Hv Hnd) as (known' & -> & Hk').
  do 3 f_equal. apply set_eq. intros k. by rewrite Hk, Hk'.
Qed.

Lemma loaded_entries_are_stable_witness :
  let w := Example.start
             (Stored (JList [ JDict (Example.entry (py "A") Example.A_URL);
                              JDict (Example.entry (py "A again") Example.A_URL);
                              JInt 3 ])) in
  let w' := Example.start Unreadable in
  exists stored known evs,
    load_existing_results w = (Ok (stored, known), add_events w evs) /\
    load_existing_results (save_results stored w').2 =
      (Ok (stored, known), (save_results stored w').2).
Proof.
  intros w w'. apply (loaded_entries_are_stable w w'); reflexivity.
Defined.






(** ** The notifier: settings and SMTP session *)

Lemma is_space_lower (c : N) : is_space (lower c) = is_space c.
Proof.
  unfold lower, between.
  destruct (N.leb_spec 65 c); [|done]. destruct (N.leb_spec c 90); [|done].
  cbn [andb]. unfold is_space, between.
  repeat match goal with
         | |- context [(?a <=? ?b)%N] => destruct (N.leb_spec a b); try lia
         | |- context [(?a =? ?b)%N] => destruct (N.eqb_spec a b); try lia
         end; reflexivity.
Qed.

Lemma lstrip_by_padding (p : N -> bool) (padding s : pystr) :
  forallb p padding = true -> lstrip_by p (padding ++ s) = lstrip_by p s.
Proof.
  induction padding as [|c padding IH]; [done|]. cbn [forallb app lstrip_by].
  intros [-> Hp]%andb_prop. by apply IH.
Qed.

Lemma lstrip_by_app (p : N -> bool) (s padding : pystr) :
  forallb p padding = true ->
  lstrip_by p (rev (lstrip_by p (s ++ padding))) = lstrip_by p (rev (lstrip_by p s)).
Proof.
  intros Hp. induction s as [|c s IH].
  - cbn [app lstrip_by rev].
    rewrite <- (app_nil_r padding), lstrip_by_padding by done. done.
  - cbn [app lstrip_by]. destruct (p c); [done|].
    change (c :: s ++ padding) with ((c :: s) ++ padding).
    rewrite rev_app_distr. apply lstrip_by_padding.
    rewrite forallb_forall in *. intros x Hx. apply Hp. by apply in_rev.
Qed.

Lemma strip_padding (before s after : pystr) :
  forallb is_space before = true -> forallb is_space after = true ->
  strip (before ++ s ++ after) = strip s.
Proof.
  intros Hb Ha. unfold strip, strip_by.
  by rewrite lstrip_by_padding, lstrip_by_app.
Qed.

Lemma lstrip_lower (s : pystr) :
  List.map lower (lstrip_by is_space s) = lstrip_by is_space (List.map lower s).
Proof.
  induction s as [|c s IH]; [done|]. cbn [List.map lstrip_by].
  rewrite is_space_lower. by destruct (is_space c).
Qed.

Lemma strip_lower (s : pystr) : List.map lower (strip s) = strip (List.map lower s).
Proof.
  unfold strip, strip_by. by rewrite map_rev, lstrip_lower, map_rev, lstrip_lower.
Qed.

(** X7.  [_bool_from_env] reads a variable that is set without regard
    to the case of ASCII letters and to white space around the value:
    two values that differ in these only give the same flag, whatever
    the default. *)
Theorem bool_from_env_ignores_case_and_padding
    (environ environ' : pystr -> option pystr) (name : pystr) (default : bool)
    (raw raw' before after : pystr) :
  environ name = Some raw ->
  environ' name = Some (before ++ raw' ++ after) ->
  List.map lower raw' = List.map lower raw ->
  forallb is_space before = true ->
  forallb is_space after = true ->
  _bool_from_env environ' name default = _bool_from_env environ name default.
Proof.
  intros He He' Hl Hb Ha. unfold _bool_from_env. rewrite He, He'.
  by rewrite strip_padding, !strip_lower, Hl.
Qed.

Lemma bool_from_env_ignores_case_and_padding_witness :
  _bool_from_env (fun _ => Some (py "  TRUE ")) (py "EMAIL_USE_TLS") false =
  _bool_from_env (fun _ => Some (py "true")) (py "EMAIL_USE_TLS") false.
Proof.
  apply (bool_from_env_ignores_case_and_padding
           (fun _ => Some (py "true")) (fun _ => Some (py "  TRUE "))
           (py "EMAIL_USE_TLS") false (py "true") (py "TRUE") (py "  ") (py " "));
    reflexivity.
Defined.

(** What [get_email_settings] does, by the environment. *)
Lemma get_email_settings_cases (environ : pystr -> option pystr) (w : world) :
  get_email_settings environ w = (Raise ValueError, w) /\
    int (getenv_or environ (py "EMAIL_PORT") (py "587")) = None \/
  (exists m, get_email_settings environ w = (Ok None, add_events w [Print m]) /\
     (unset_or_empty (environ (py "EMAIL_USER")) \/
      unset_or_empty (environ (py "EMAIL_PASSWORD")) \/
      unset_or_empty (environ (py "EMAIL_TO")))) \/
  (exists s, get_email_settings environ w = (Ok (Some s), w) /\
     int (getenv_or environ (py "EMAIL_PORT") (py "587")) = Some (port s) /\
     host s = getenv_or environ (py "EMAIL_HOST") (py "smtp.gmail.com") /\
     environ (py "EMAIL_USER") = Some (user s) /\ truthy (user s) = true /\
     environ (py "EMAIL_PASSWORD") = Some (password s) /\ truthy (password s) = true /\
     environ (py "EMAIL_TO") = Some (to_addr s) /\ truthy (to_addr s) = true /\
     truthy (from_addr s) = true /\
     (environ (py "EMAIL_FROM") = Some (from_addr s) \/
      unset_or_empty (environ (py "EMAIL_FROM")) /\ from_addr s = user s) /\
     use_tls s = _bool_from_env environ (py "EMAIL_USE_TLS") true).
Proof.
  unfold get_email_settings, bind, or_raise, print, emit, ret, raise.
  destruct (int (getenv_or environ (py "EMAIL_PORT") (py "587"))) as [p|]; [|by left].
  right.
  destruct (environ (py "EMAIL_USER")) as [u|] eqn:Hu;
    [|left; exists CredentialsMissing; split; [done|by left]].
  destruct (environ (py "EMAIL_PASSWORD")) as [pw|] eqn:Hpw;
    [|left; exists CredentialsMissing; split; [done|by right; left]].
  destruct (truthy u) eqn:Htu;
    [|left; exists CredentialsMissing; split; [done|by left]].
  destruct (truthy pw) eqn:Htpw;
    [|left; exists CredentialsMissing; split; [done|by right; left]].
  cbn [negb orb].
  destruct (environ (py "EMAIL_TO")) as [t|] eqn:Ht;
    [|left; exists RecipientMissing; split; [done|by right; right]].
  destruct (truthy t) eqn:Htt;
    [|left; exists RecipientMissing; split; [done|by right; right]].
  right. eexists. split; [reflexivity|]. cbn.
  repeat (split; [done|]).
  destruct (environ (py "EMAIL_FROM")) as [f|]; cbn.
  - destruct (truthy f) eqn:Hf; cbn.
    + split; [done|]. split; [by left|done].
    + split; [done|]. split; [by right|done].
  - rewrite Htu. split; [done|]. split; [by right|done].
Qed.

(** X8.  The settings that [get_email_settings] returns are complete:
    user, password and recipient are the non-empty values of
    [EMAIL_USER], [EMAIL_PASSWORD] and [EMAIL_TO]; the sender is never
    empty, being [EMAIL_FROM] or, when that is unset or empty, the user;
    nothing is printed.  Conversely, with the three variables set and
    non-empty and a port that [int] accepts, settings are returned. *)
Theorem email_settings_are_complete (environ : pystr -> option pystr) (w : world) :
  (forall s w',
     get_email_settings environ w = (Ok (Some s), w') ->
     w' = w /\
     environ (py "EMAIL_USER") = Some (user s) /\ truthy (user s) = true /\
     environ (py "EMAIL_PASSWORD") = Some (password s) /\ truthy (password s) = true /\
     environ (py "EMAIL_TO") = Some (to_addr s) /\ truthy (to_addr s) = true /\
     truthy (from_addr s) = true /\
     (environ (py "EMAIL_FROM") = Some (from_addr s) \/
      unset_or_empty (environ (py "EMAIL_FROM")) /\ from_addr s = user s)) /\
  (forall u p t n,
     environ (py "EMAIL_USER") = Some u -> truthy u = true ->
     environ (py "EMAIL_PASSWORD") = Some p -> truthy p = true ->
     environ (py "EMAIL_TO") = Some t -> truthy t = true ->
     int (getenv_or environ (py "EMAIL_PORT") (py "587")) = Some n ->
     exists s,
       get_email_settings environ w = (Ok (Some s), w) /\
       user s = u /\ password s = p /\ to_addr s = t /\ port s = n).
Proof.
  split.
  - intros s w' Hs.
    destruct (get_email_settings_cases environ w)
      as [[Hr _]|[(m & Hr & _)|(s' & Hr & H)]]; rewrite Hr in Hs; try done.
    injection Hs as <- <-. naive_solver.
  - intros u p t n Hu Htu Hp Htp Ht Htt Hn.
    destruct (get_email_settings_cases environ w)
      as [[_ Hr]|[(m & _ & Hr)|(s & Hr & H)]].
    + congruence.
    + rewrite Hu, Hp, Ht in Hr. cbn in Hr. naive_solver congruence.
    + exists s. split; [done|]. naive_solver congruence.
Qed.

Lemma email_settings_are_complete_witness :
  exists s,
    get_email_settings Example.mail_environ (Example.start Missing) =
      (Ok (Some s), Example.start Missing) /\
    user s = py "crawler@example.org" /\ password s = py "secret" /\
    to_addr s = py "owner@example.org" /\ port s = 587%Z.
Proof.
  apply (email_settings_are_complete Example.mail_environ (Example.start Missing));
    reflexivity.
Defined.

Lemma smtp_session_run (smtp_failure : smtp_step -> bool) (s : settings)
    (msg : EmailMessage) (w : world) :
  smtp_session smtp_failure s msg w =
    (Ok (all_succeed smtp_failure (session_steps s msg)),
     add_events w (Smtp <$> attempted smtp_failure (session_steps s msg))).
Proof.
  unfold smtp_session, smtp, session_steps, all_succeed, bind, emit, ret, add_events.
  cbn [forallb attempted app].
  destruct (smtp_failure (Connect (host s) (port s))); cbn; [done|].
  destruct (use_tls s); cbn.
  - destruct (smtp_failure StartTls); cbn; [by rewrite <- app_assoc|].
    destruct (smtp_failure (Login (user s) (password s))); cbn;
      [by rewrite <- !app_assoc|].
    destruct (smtp_failure (SendMessage msg)); cbn; by rewrite <- !app_assoc.
  - destruct (smtp_failure (Login (user s) (password s))); cbn;
      [by rewrite <- !app_assoc|].
    destruct (smtp_failure (SendMessage msg)); cbn; by rewrite <- !app_assoc.
Qed.

Lemma send_email_notification_run (environ : pystr -> option pystr)
    (smtp_failure : smtp_step -> bool)
    (message_rejected : EmailMessage -> bool)
    (s : settings) (listings : list dict) (w : world) :
  get_email_settings environ w = (Ok (Some s), w) ->
  listings <> [] ->
  let msg := email_message s listings in
  send_email_notification environ smtp_failure message_rejected listings w =
    if message_rejected msg then (Raise MessageError, w)
    else
      (Ok tt,
       add_events w
         ((Smtp <$> attempted smtp_failure (session_steps s msg)) ++
          [Print (if all_succeed smtp_failure (session_steps s msg)
                  then NotificationSent (to_addr s)
                  else NotificationFailed)])).
Proof.
  intros Hs Hl msg. unfold send_email_notification, bind at 1. rewrite Hs.
  destruct listings as [|entry listings]; [done|].
  fold (email_message s (entry :: listings)). fold msg.
  unfold bind at 1. destruct (message_rejected msg); [done|].
  unfold ret at 1, bind. rewrite smtp_session_run.
  destruct (all_succeed smtp_failure (session_steps s msg));
    unfold print, emit, add_events; cbn; by rewrite <- app_assoc.
Qed.

(** X9.  With settings in place and a message that the [email] package
    accepts, [send_email_notification] returns normally whatever the
    SMTP server does: the session goes through its steps in order up to
    the first that fails, and one line is printed, for a sent
    notification or for a failed one; when a step failed it is the line
    for failure. *)
Theorem smtp_failure_is_logged_not_raised (environ : pystr -> option pystr)
    (smtp_failure : smtp_step -> bool)
    (message_rejected : EmailMessage -> bool)
    (s : settings) (listings : list dict) (w : world) :
  get_email_settings environ w = (Ok (Some s), w) ->
  listings <> [] ->
  message_rejected (email_message s listings) = false ->
  let steps := session_steps s (email_message s listings) in
  exists line,
    send_email_notification environ smtp_failure message_rejected listings w =
      (Ok tt, add_events w ((Smtp <$> attempted smtp_failure steps) ++ [Print line])) /\
    (line = NotificationSent (to_addr s) \/ line = NotificationFailed) /\
    (all_succeed smtp_failure steps = false -> line = NotificationFailed).
Proof.
  intros Hs Hl Hm steps.
  rewrite (send_email_notification_run _ _ _ s) by done. rewrite Hm. fold steps.
  eexists. split; [reflexivity|].
  destruct (all_succeed smtp_failure steps); split; auto; done.
Qed.

Lemma smtp_failure_is_logged_not_raised_witness :
  let rejects_login := fun step : smtp_step =>
    match step with Login _ _ => true | _ => false end in
  let s := {| host := py "smtp.gmail.com"; port := 587;
              user := py "crawler@example.org"; password := py "secret";
              from_addr := py "crawler@example.org";
              to_addr := py "owner@example.org"; use_tls := true |} in
  let listings := [Example.entry (py "C") Example.C_URL] in
  exists line,
    send_email_notification Example.mail_environ rejects_login Example.never_rejected
      listings (Example.start Missing) =
      (Ok tt,
       add_events (Example.start Missing)
         ((Smtp <$> attempted rejects_login (session_steps s (email_message s listings)))
          ++ [Print line])) /\
    (line = NotificationSent (to_addr s) \/ line = NotificationFailed) /\
    (all_succeed rejects_login (session_steps s (email_message s listings)) = false ->
     line = NotificationFailed).
Proof.
  intros rejects_login s listings.
  apply (smtp_failure_is_logged_not_raised Example.mail_environ rejects_login
           Example.never_rejected s listings (Example.start Missing));
    [reflexivity|discriminate|reflexivity].
Defined.

Lemma attempted_login (failure : smtp_step -> bool) (s : settings)
    (msg : EmailMessage) (u p : pystr) :
  use_tls s = true ->
  Login u p ∈ attempted failure (session_steps s msg) ->
  failure StartTls = false /\
  exists pre post,
    attempted failure (session_steps s msg) = pre ++ StartTls :: Login u p :: post.
Proof.
  intros Htls. unfold session_steps. rewrite Htls. cbn [app attempted].
  destruct (failure (Connect (host s) (port s))).
  { intros Hin. apply elem_of_cons in Hin as [Hin|Hin]; [done|].
    by apply elem_of_nil in Hin. }
  destruct (failure StartTls).
  { intros Hin. repeat (apply elem_of_cons in Hin as [Hin|Hin]; [done|]).
    by apply elem_of_nil in Hin. }
  intros Hin. split; [done|].
  exists [Connect (host s) (port s)].
  apply elem_of_cons in Hin as [Hin|Hin]; [done|].
  apply elem_of_cons in Hin as [Hin|Hin]; [done|].
  apply elem_of_cons in Hin as [Hin|Hin].
  - injection Hin as -> ->. by eexists.
  - destruct (failure (Login (user s) (password s))); [by apply elem_of_nil in Hin|].
    apply elem_of_cons in Hin as [Hin|Hin]; [done|].
    destruct (failure (SendMessage msg)); by apply elem_of_nil in Hin.
Qed.

Lemma attempted_send (failure : smtp_step -> bool) (s : settings)
    (msg m : EmailMessage) :
  SendMessage m ∈ attempted failure (session_steps s msg) ->
  m = msg /\
  all_succeed failure [Connect (host s) (port s); Login (user s) (password s)] = true /\
  exists pre,
    attempted failure (session_steps s msg) =
      pre ++ [Login (user s) (password s); SendMessage m].
Proof.
  unfold session_steps, all_succeed. cbn [app attempted forallb].
  destruct (failure (Connect (host s) (port s))).
  { intros Hin. apply elem_of_cons in Hin as [Hin|Hin]; [done|].
    by apply elem_of_nil in Hin. }
  destruct (use_tls s); cbn [app attempted].
  - destruct (failure StartTls).
    { intros Hin. repeat (apply elem_of_cons in Hin as [Hin|Hin]; [done|]).
      by apply elem_of_nil in Hin. }
    destruct (failure (Login (user s) (password s))).
    { intros Hin. repeat (apply elem_of_cons in Hin as [Hin|Hin]; [done|]).
      by apply elem_of_nil in Hin. }
    intros Hin. repeat (apply elem_of_cons in Hin as [Hin|Hin]; [done|]).
    apply elem_of_cons in Hin as [Hin|Hin].
    + injection Hin as ->. split; [done|]. split; [done|].
      exists [Connect (host s) (port s); StartTls].
      by destruct (failure (SendMessage msg)).
    + destruct (failure (SendMessage msg)); by apply elem_of_nil in Hin.
  - destruct (failure (Login (user s) (password s))).
    { intros Hin. repeat (apply elem_of_cons in Hin as [Hin|Hin]; [done|]).
      by apply elem_of_nil in Hin. }
    intros Hin. repeat (apply elem_of_cons in Hin as [Hin|Hin]; [done|]).
    apply elem_of_cons in Hin as [Hin|Hin].
    + injection Hin as ->. split; [done|]. split; [done|].
      exists [Connect (host s) (port s)].
      by destruct (failure (SendMessage msg)).
    + destruct (failure (SendMessage msg)); by apply elem_of_nil in Hin.
Qed.

Lemma smtp_steps_of_session (steps : list smtp_step) (m : message) :
  Example.smtp_steps ((Smtp <$> steps) ++ [Print m]) = steps.
Proof.
  unfold Example.smtp_steps. rewrite omap_app. cbn. rewrite app_nil_r.
  induction steps as [|step steps IH]; [done|]. cbn. by rewrite IH.
Qed.

(** X10.  The SMTP traffic of [send_email_notification], in every
    environment and whatever the server does.  For an empty list of
    listings there is none.  With TLS wanted, a login is attempted only
    directly after a STARTTLS that succeeded, so the credentials never
    go over a connection that could not be secured.  A message is handed
    over only directly after a login that succeeded, and it counts the
    listings given. *)
Theorem smtp_traffic_is_ordered (environ : pystr -> option pystr)
    (smtp_failure : smtp_step -> bool)
    (message_rejected : EmailMessage -> bool) (listings : list dict) (w : world) :
  exists r evs,
    send_email_notification environ smtp_failure message_rejected listings w =
      (r, add_events w evs) /\
    (listings = [] -> Example.smtp_steps evs = []) /\
    (forall u p,
       Login u p ∈ Example.smtp_steps evs ->
       _bool_from_env environ (py "EMAIL_USE_TLS") true = true ->
       smtp_failure StartTls = false /\
       exists pre post, Example.smtp_steps evs = pre ++ StartTls :: Login u p :: post) /\
    (forall m,
       SendMessage m ∈ Example.smtp_steps evs ->
       count m = length listings /\
       exists pre u p,
         smtp_failure (Login u p) = false /\
         Example.smtp_steps evs = pre ++ [Login u p; SendMessage m]).
Proof.
  assert (forall p : Prop, (exists step : smtp_step, step ∈ @nil smtp_step) -> p) as Hnil.
  { intros p (step & Hin). by apply elem_of_nil in Hin. }
  destruct (get_email_settings_cases environ w)
    as [[Hr _]|[(msg & Hr & _)|(s & Hr & H)]].
  - unfold send_email_notification, bind. rewrite Hr.
    exists (Raise ValueError), []. rewrite add_events_nil.
    repeat split; try done; intros; apply Hnil; by eexists.
  - unfold send_email_notification, bind. rewrite Hr. exists (Ok tt), [Print msg].
    repeat split; try done; intros; apply Hnil; by eexists.
  - destruct listings as [|entry listings].
    { unfold send_email_notification, bind. rewrite Hr.
      exists (Ok tt), []. rewrite add_events_nil.
      repeat split; try done; intros; apply Hnil; by eexists. }
    rewrite (send_email_notification_run _ _ _ s) by done. cbv zeta.
    set (msg := email_message s (entry :: listings)).
    destruct (message_rejected msg).
    { exists (Raise MessageError), []. rewrite add_events_nil.
      repeat split; try done; intros; apply Hnil; by eexists. }
    eexists _, _. split; [reflexivity|]. rewrite smtp_steps_of_session.
    split; [done|]. split.
    + intros u p Hin Htls. apply attempted_login; [|done].
      destruct H as (_ & _ & _ & _ & _ & _ & _ & _ & _ & _ & ->). done.
    + intros m Hin. apply attempted_send in Hin as (-> & Hok & pre & Hpre).
      split; [done|]. exists pre, (user s), (password s). split; [|done].
      unfold all_succeed in Hok. cbn in Hok.
      by destruct (smtp_failure (Login (user s) (password s)));
        destruct (smtp_failure (Connect (host s) (port s))).
Qed.

Lemma attempted_all (failure : smtp_step -> bool) (steps : list smtp_step) :
  all_succeed failure steps = true -> attempted failure steps = steps.
Proof.
  unfold all_succeed. induction steps as [|step steps IH]; [done|].
  cbn [forallb attempted]. intros [Hs Hr]%andb_prop.
  apply negb_true_iff in Hs. rewrite Hs. by rewrite IH.
Qed.

(** X11.  The mail for the new listings of a run.  With settings in
    place, a message that is accepted and a session in which no step
    fails, exactly one message is handed to the server: from the sender
    to the recipient of the settings, counting the listings and listing
    title, price text and link of each, in order. *)
Theorem sent_message_lists_every_listing (environ : pystr -> option pystr)
    (smtp_failure : smtp_step -> bool)
    (message_rejected : EmailMessage -> bool)
    (s : settings) (listings : list Listing) (w : world) :
  get_email_settings environ w = (Ok (Some s), w) ->
  listings <> [] ->
  message_rejected (email_message s (to_dict <$> listings)) = false ->
  all_succeed smtp_failure
    (session_steps s (email_message s (to_dict <$> listings))) = true ->
  exists evs,
    send_email_notification environ smtp_failure message_rejected
      (to_dict <$> listings) w = (Ok tt, add_events w evs) /\
    Example.sent_messages evs =
      [ {| count := length listings;
           sender := from_addr s;
           recipient := to_addr s;
           body := (fun l => (JStr (title l), JStr (price_text l),
                              json_of_link (link l))) <$> listings |} ].
Proof.
  intros Hs Hl Hm Hok.
  assert (to_dict <$> listings <> []) as Hl' by (by destruct listings).
  rewrite (send_email_notification_run _ _ _ s) by done. rewrite Hm.
  eexists. split; [reflexivity|].
  rewrite (attempted_all _ _ Hok). unfold session_steps, Example.sent_messages.
  assert (email_message s (to_dict <$> listings) =
          {| count := length listings; sender := from_addr s; recipient := to_addr s;
             body := (fun l => (JStr (title l), JStr (price_text l),
                                json_of_link (link l))) <$> listings |}) as ->.
  { unfold email_message. rewrite length_fmap. f_equal.
    by rewrite <- list_fmap_compose. }
  by destruct (use_tls s).
Qed.

Lemma sent_message_lists_every_listing_witness :
  let s := {| host := py "smtp.gmail.com"; port := 587;
              user := py "crawler@example.org"; password := py "secret";
              from_addr := py "crawler@example.org";
              to_addr := py "owner@example.org"; use_tls := true |} in
  let listings := [ {| title := py "C"; price_text := Example.FREE;
                       link := Some Example.C_URL |} ] in
  exists evs,
    send_email_notification Example.mail_environ Example.never_fails
      Example.never_rejected (to_dict <$> listings) (Example.start Missing) =
      (Ok tt, add_events (Example.start Missing) evs) /\
    Example.sent_messages evs =
      [ {| count := length listings;
           sender := from_addr s;
           recipient := to_addr s;
           body := (fun l => (JStr (title l), JStr (price_text l),
                              json_of_link (link l))) <$> listings |} ].
Proof.
  intros s listings.
  apply (sent_message_lists_every_listing Example.mail_environ Example.never_fails
           Example.never_rejected s listings (Example.start Missing));
    [reflexivity|discriminate|reflexivity|reflexivity].
Defined.


(** ** The page fetcher and the extractor, once more *)

Lemma scroll_loop_run (prev_height : N) (heights : list N) :
  exists n,
    (1 <= n <= S (length heights))%nat /\
    forall w,
      scroll_loop prev_height heights w =
        (Ok tt, add_events w (replicate n ScrollToBottom)).
Proof.
  revert prev_height. induction heights as [|h heights IH]; intros prev_height.
  - exists 1%nat. split; [cbn; lia|done].
  - destruct (IH h) as (n & Hn & Hrun). cbn [scroll_loop].
    destruct (h =? prev_height)%N.
    + exists 1%nat. split; [cbn; lia|done].
    + exists (S n). split; [cbn [length]; lia|]. intros w. unfold bind, emit.
      rewrite Hrun. unfold add_events. cbn. by rewrite <- app_assoc.
Qed.

Lemma scroll_loop_stops (pre : list N) :
  forall (prev_height h : N) (post : list N) (w : world),
    (forall i a b, (prev_height :: pre) !! i = Some a -> pre !! i = Some b -> a <> b) ->
    last (prev_height :: pre) = Some h ->
    scroll_loop prev_height (pre ++ h :: post) w =
      (Ok tt, add_events w (replicate (S (length pre)) ScrollToBottom)).
Proof.
  induction pre as [|a pre IH]; intros prev_height h post w Hgrow Hlast.
  - injection Hlast as ->. cbn [app scroll_loop]. by rewrite N.eqb_refl.
  - cbn [app scroll_loop].
    assert (a <> prev_height) as Hne.
    { intros ->. by apply (Hgrow 0%nat prev_height prev_height). }
    apply N.eqb_neq in Hne. rewrite Hne. unfold bind, emit.
    rewrite (IH a h post).
    + unfold add_events. cbn. by rewrite <- app_assoc.
    + intros i x y Hx Hy. by apply (Hgrow (S i) x y).
    + by rewrite last_cons_cons in Hlast.
Qed.

(** X12.  [scroll_page] never raises and does nothing but scroll: at
    least once, and at most once more than the number of heights the
    page goes through.  It stops at the first scroll that leaves the
    height as it was: when the heights before it differ each from the
    one before, the number of scrolls is the number of those heights
    plus one. *)
Theorem scroll_page_stops_at_stable_height (p : Page) (w : world) :
  browser w = Some p ->
  (exists n,
     (1 <= n <= S (length (growth p)))%nat /\
     scroll_page w = (Ok tt, add_events w (replicate n ScrollToBottom))) /\
  (forall pre h post,
     growth p = pre ++ h :: post ->
     (forall i a b,
        (initial_height p :: pre) !! i = Some a -> pre !! i = Some b -> a <> b) ->
     last (initial_height p :: pre) = Some h ->
     scroll_page w =
       (Ok tt, add_events w (replicate (S (length pre)) ScrollToBottom))).
Proof.
  intros Hp. unfold scroll_page, current_page, get_browser, bind, ret. rewrite Hp.
  split.
  - destruct (scroll_loop_run (initial_height p) (growth p)) as (n & Hn & Hrun).
    by exists n.
  - intros pre h post -> Hgrow Hlast. by apply scroll_loop_stops.
Qed.

Lemma scroll_page_stops_at_stable_height_witness :
  let w := {| file := Missing; browser := Some (Example.listing_page []); events := [] |} in
  scroll_page w = (Ok tt, add_events w (replicate 3 ScrollToBottom)).
Proof.
  intros w.
  apply (proj2 (scroll_page_stops_at_stable_height (Example.listing_page []) w eq_refl)
           [1800; 2400]%N 2400%N []).
  - reflexivity.
  - intros [|[|[|i]]] a b; cbn; intros [= <-] [= <-]; lia.
  - reflexivity.
Defined.

Lemma read_price_value_text (element : Tile) (w w1 : world)
    (price_text : option pystr) (price_value : option spec_float) :
  _read_price_value element w = (Ok (price_text, price_value), w1) ->
  price_text = (fun visible => strip (text visible)) <$> element wcpbc_price.
Proof.
  unfold _read_price_value, find_element, on_missing_element.
  unfold try_except, bind, emit, or_raise, ret, raise.
  cbn beta iota zeta delta [file browser events].
  repeat run_step; intros [= <- <- <-]; reflexivity.
Qed.

(** X13.  A listing returned by [extract_listing_info] is complete: the
    tile qualifies, its link and title elements exist, the link is the
    [href] of the one and the title the stripped text of the other; the
    price text is the stripped text of the visible price element or,
    when that element is absent or blank, the default, and so never
    empty. *)
Theorem extracted_listing_is_complete (element : Tile) (listing : Listing) (w w' : world) :
  extract_listing_info element w = (Ok (Some listing), w') ->
  qualifies element = true /\
  (exists link_element title_element,
     element totallink = Some link_element /\
     element item_compare_title = Some title_element /\
     link listing = href link_element /\
     title listing = strip (text title_element)) /\
  price_text listing =
    match element wcpbc_price with
    | Some visible =>
        if truthy (strip (text visible)) then strip (text visible)
        else EURO ++ py "0.00"
    | None => EURO ++ py "0.00"
    end /\
  truthy (price_text listing) = true.
Proof.
  intros Hx.
  pose proof (extract_listing_info_result element w) as Hr. rewrite Hx in Hr.
  cbn [fst] in Hr. symmetry in Hr. rewrite extracted_eq in Hr. unfold qualifies.
  destruct (resolved_price element) as [[pt [v|]]|e] eqn:Hp; try done.
  destruct (is_zero v); [|done]. split; [done|].
  unfold resolved_price in Hp.
  destruct (_read_price_value element _) as [r w1] eqn:Hread. cbn [fst] in Hp. subst r.
  apply read_price_value_text in Hread. subst pt.
  destruct (element totallink) as [link_element|]; [|done].
  destruct (element item_compare_title) as [title_element|]; [|done].
  injection Hr as <-. cbn [link title price_text]. split; [by eexists _, _|].
  destruct (element wcpbc_price) as [visible|]; cbn; [|done].
  by destruct (truthy (strip (text visible))) eqn:Ht.
Qed.

Lemma extracted_listing_is_complete_witness :
  let listing := {| title := py "Guitar"; price_text := Example.FREE;
                    link := Some Example.A_URL |} in
  qualifies (Example.free_tile (py " Guitar ") (Some Example.A_URL)) = true /\
  truthy (price_text listing) = true.
Proof.
  intros listing.
  destruct (extracted_listing_is_complete
              (Example.free_tile (py " Guitar ") (Some Example.A_URL)) listing
              (Example.start Missing)
              (add_events (Example.start Missing)
                 [ FindElement price_for_filter; FindElement wcpbc_price;
                   FindElement totallink; FindElement item_compare_title ]))
    as (Hq & _ & _ & Ht); [vm_compute; reflexivity|].
  exact (conj Hq Ht).
Defined.

Lemma collected_eq (items : list Tile) :
  forall free_entries found,
    collected items free_entries = Ok found ->
    found = free_entries ++ omap listing_of items.
Proof.
  induction items as [|item items IH]; intros free_entries found; cbn [collected].
  - intros [= <-]. by rewrite app_nil_r.
  - cbn [omap list_omap]. unfold listing_of at 1.
    destruct (extracted item) as [[l|]|e]; [| |done].
    + intros ->%IH. by rewrite <- app_assoc.
    + apply IH.
Qed.

Lemma page_listings_eq (p : Page) (found : list Listing) :
  page_listings p = Ok found -> found = findings p.
Proof.
  unfold page_listings, findings. destruct (load p); [|by intros [= <-]..].
  destruct (listing_container p); [|done]. apply collected_eq.
Qed.

(** X14.  What [collect_free_listings_on_url] returns, when it returns:
    the listings of the tiles of the page for which the extractor gives
    one, in page order, or nothing when the page does not load; never
    more listings than tiles. *)
Theorem collected_listings_are_the_findings (web : pystr -> Page) (url : pystr)
    (w : world) (found : list Listing) :
  (collect_free_listings_on_url web url w).1 = Ok found ->
  found = findings (web url) /\
  (length found <= length (products (web url)))%nat.
Proof.
  destruct (collect_run web url w) as (evs & ->). cbn [fst]. intros ->%page_listings_eq.
  split; [done|]. unfold findings. destruct (load (web url)); cbn [length]; try lia.
  induction (products (web url)) as [|item items IH]; [done|].
  cbn [omap list_omap length]. destruct (listing_of item); cbn [length]; lia.
Qed.

Lemma collected_listings_are_the_findings_witness :
  let priced := Example.tile None (Some (EURO ++ py "1,200.00")) (py "A")
                  (Some Example.A_URL) in
  let web := Example.shop [ priced; Example.free_tile (py "B") (Some Example.B_URL) ] in
  let found := [ {| title := py "B"; price_text := Example.FREE;
                    link := Some Example.B_URL |} ] in
  found = findings (web (LISTING_URL_TEMPLATE 1)) /\
  (length found <= length (products (web (LISTING_URL_TEMPLATE 1))))%nat.
Proof.
  intros priced web found.
  apply (collected_listings_are_the_findings web (LISTING_URL_TEMPLATE 1)
           (Example.start Missing) found).
  vm_compute. reflexivity.
Defined.

Lemma scanned_eq (web : pystr -> Page) (urls : list pystr) :
  forall run_listings found,
    scanned web urls run_listings = Ok found ->
    found = run_listings ++ concat ((fun url => findings (web url)) <$> urls).
Proof.
  induction urls as [|url urls IH]; intros run_listings found; cbn [scanned].
  - intros [= <-]. by rewrite app_nil_r.
  - destruct (page_listings (web url)) as [page|e] eqn:Hp; [|done].
    apply page_listings_eq in Hp as ->. intros ->%IH.
    cbn [fmap list_fmap concat]. by rewrite <- app_assoc.
Qed.

(** X15.  When the two scanning loops of [main] run to their end, the
    listings of the run are the findings of the ten shop pages, then of
    the three static URLs, each in page order; the results file has not
    been touched. *)
Theorem run_listings_are_the_findings_of_the_run (web : pystr -> Page)
    (w : world) (run_listings : list Listing) :
  (main_scan web w).1 = Ok run_listings ->
  run_listings = concat ((fun url => findings (web url)) <$> scanned_urls) /\
  file (main_scan web w).2 = file w.
Proof.
  destruct (main_scan_run web w) as (w' & -> & Hf). cbn [fst snd].
  intros ->%scanned_eq. done.
Qed.

Lemma run_listings_are_the_findings_of_the_run_witness :
  let web := Example.shop [ Example.free_tile (py "B") (Some Example.B_URL) ] in
  let found := [ {| title := py "B"; price_text := Example.FREE;
                    link := Some Example.B_URL |} ] in
  found = concat ((fun url => findings (web url)) <$> scanned_urls) /\
  file (main_scan web (Example.start Missing)).2 = Missing.
Proof.
  intros web found.
  apply (run_listings_are_the_findings_of_the_run web (Example.start Missing) found).
  vm_compute. reflexivity.
Defined.



(** ** The events of a run *)

Lemma emits_only_ret {A} (P : event -> Prop) (a : A) : emits_only P (ret a).
Proof. intros w. exists (Ok a), []. by rewrite add_events_nil. Qed.

Lemma emits_only_raise {A} (P : event -> Prop) (e : exn) : emits_only P (@raise A e).
Proof. intros w. exists (Raise e), []. by rewrite add_events_nil. Qed.

Lemma emits_only_emit (P : event -> Prop) (e : event) : P e -> emits_only P (emit e).
Proof. intros He w. exists (Ok tt), [e]. split; [done|]. by apply Forall_singleton. Qed.

Lemma emits_only_bind {A B} (P : event -> Prop) (m : M A) (k : A -> M B) :
  emits_only P m -> (forall a, emits_only P (k a)) -> emits_only P (bind m k).
Proof.
  intros Hm Hk w. unfold bind. destruct (Hm w) as (r & evs & -> & Hevs).
  destruct r as [a|e]; [|by exists (Raise e), evs].
  destruct (Hk a (add_events w evs)) as (r' & evs' & -> & Hevs').
  exists r', (evs ++ evs'). rewrite add_events_app. split; [done|].
  by apply Forall_app.
Qed.

Lemma emits_only_try_except {A} (P : event -> Prop) (m : M A)
    (handler : exn -> option (M A)) :
  emits_only P m -> (forall e h, handler e = Some h -> emits_only P h) ->
  emits_only P (try_except m handler).
Proof.
  intros Hm Hh w. unfold try_except. destruct (Hm w) as (r & evs & -> & Hevs).
  destruct r as [a|e]; [by exists (Ok a), evs|].
  destruct (handler e) as [h|] eqn:He; [|by exists (Raise e), evs].
  destruct (Hh e h He (add_events w evs)) as (r' & evs' & -> & Hevs').
  exists r', (evs ++ evs'). rewrite add_events_app. split; [done|].
  by apply Forall_app.
Qed.

Lemma emits_only_or_raise {A} (P : event -> Prop) (o : option A) (e : exn) :
  emits_only P (or_raise o e).
Proof. destruct o; [apply emits_only_ret | apply emits_only_raise]. Qed.

Lemma emits_only_for_each {A B} (P : event -> Prop) (xs : list A) (acc : B)
    (body : B -> A -> M B) :
  (forall acc x, emits_only P (body acc x)) -> emits_only P (for_each xs acc body).
Proof.
  intros Hb. revert acc. induction xs as [|x xs IH]; intros acc; simpl.
  - apply emits_only_ret.
  - apply emits_only_bind; [apply Hb | intros; apply IH].
Qed.

Lemma on_missing_element_passive {A} (value : A) (e : exn) (h : M A) :
  on_missing_element value e = Some h -> emits_only passive h.
Proof. destruct e; intros [= <-]. apply emits_only_ret. Qed.

(** Proves [emits_only passive] for a program built from the monad's
    operations, going under the case distinctions it makes. *)
Ltac emits_passive :=
  repeat first
    [ progress intros
    | apply emits_only_bind
    | apply emits_only_try_except
    | apply emits_only_for_each
    | apply emits_only_ret
    | apply emits_only_raise
    | apply emits_only_or_raise
    | apply emits_only_emit; exact I
    | progress unfold print
    | match goal with
      | |- emits_only _ (match ?x with _ => _ end) => destruct x
      | |- emits_only _ (if ?b then _ else _) => destruct b
      | |- emits_only _ (let '(_, _) := ?x in _) => destruct x
      end ].

Lemma extract_listing_info_passive (element : Tile) :
  emits_only passive (extract_listing_info element).
Proof.
  unfold extract_listing_info, _read_price_value, find_element.
  emits_passive. all: by eapply on_missing_element_passive.
Qed.

Lemma collect_items_passive (items : list Tile) (free_entries : list Listing) :
  emits_only passive (for_each items free_entries collect_item).
Proof.
  apply emits_only_for_each. intros acc item. unfold collect_item.
  apply emits_only_bind; [apply extract_listing_info_passive|].
  intros [l|]; apply emits_only_ret.
Qed.

Lemma send_email_notification_passive (environ : pystr -> option pystr)
    (smtp_failure : smtp_step -> bool)
    (message_rejected : EmailMessage -> bool) (listings : list dict) :
  emits_only passive
    (send_email_notification environ smtp_failure message_rejected listings).
Proof.
  unfold send_email_notification, get_email_settings, smtp_session, smtp.
  emits_passive.
Qed.

Lemma load_existing_results_passive (w : world) :
  loadable (file w) = true ->
  exists evs,
    load_existing_results w = (Ok (spec_load (file w)), add_events w evs) /\
    Forall passive evs.
Proof.
  destruct (file w) as [| |data| |] eqn:Hf; [| | |done|done]; intros _.
  - exists []. unfold load_existing_results, bind, get_file. rewrite Hf.
    by rewrite add_events_nil.
  - exists [Print FailedToRead]. unfold load_existing_results, bind, get_file.
    rewrite Hf. split; [done|]. by apply Forall_singleton.
  - destruct data as [| | | | |data|];
      try (exists [Print FailedToRead]; unfold load_existing_results, bind, get_file;
           rewrite Hf; split; [done|]; by apply Forall_singleton).
    exists []. rewrite add_events_nil. split; [|done].
    rewrite <- Hf. by apply (load_stored_list w data).
Qed.

Lemma urls_got_passive (evs : list event) : Forall passive evs -> urls_got evs = [].
Proof.
  induction 1 as [|e evs He _ IH]; [done|]. unfold urls_got. cbn [omap list_omap].
  by destruct e.
Qed.

Lemma results_written_browsing (evs : list event) :
  Forall browsing evs -> results_written evs = [] /\ Quit ∉ evs.
Proof.
  induction 1 as [|e evs He _ [IH1 IH2]]; [split; [done|apply not_elem_of_nil]|].
  split.
  - unfold results_written. cbn [omap list_omap]. by destruct e.
  - intros [<-|Hin]%elem_of_cons; done.
Qed.

Lemma passive_browsing (evs : list event) : Forall passive evs -> Forall browsing evs.
Proof. intros Hp. eapply Forall_impl; [exact Hp|]. by intros []. Qed.

(** The events of fetching one URL: the request, then passive events. *)
Lemma collect_trace (web : pystr -> Page) (url : pystr) (w : world) :
  exists evs,
    collect_free_listings_on_url web url w =
      (page_listings (web url), visited web url w evs) /\
    Forall passive evs.
Proof.
  unfold page_listings. destruct (load (web url)) eqn:Hl.
  - destruct (listing_container (web url)) eqn:Hc.
    + destruct (scroll_loop_run (initial_height (web url)) (growth (web url)))
        as (n & _ & Hscroll).
      set (evs := WaitForContainer :: replicate n ScrollToBottom ++ [FindElements]).
      assert (collect_free_listings_on_url web url w =
                for_each (products (web url)) [] collect_item (visited web url w evs))
        as ->.
      { unfold collect_free_listings_on_url, driver_get, wait_for_listings, scroll_page,
          find_elements, current_page, get_browser, visited.
        unfold try_except, bind, emit, set_browser, ret, raise. rewrite Hl.
        cbn. rewrite Hc, Hscroll. cbn. f_equal. f_equal.
        rewrite <- !app_assoc. reflexivity. }
      destruct (for_each_collect_item (products (web url)) [] (visited web url w evs))
        as (evs' & Hrun).
      destruct (collect_items_passive (products (web url)) [] (visited web url w evs))
        as (r & evs'' & Hrun' & Hp).
      rewrite Hrun'. rewrite Hrun' in Hrun. injection Hrun as -> _.
      exists (evs ++ evs''). split.
      * unfold visited, add_events. cbn. by rewrite <- app_assoc.
      * apply Forall_app. split; [|done]. apply List.Forall_cons; [exact I|].
        apply Forall_app. split; [|by apply Forall_singleton].
        apply Forall_replicate. exact I.
    + rewrite (collect_without_container web url w Hl Hc).
      eexists. split; [done|]. by apply Forall_singleton.
  - rewrite collect_load_failure by (rewrite Hl; done). rewrite Hl.
    eexists. split; [done|]. by repeat apply List.Forall_cons.
  - rewrite collect_load_failure by (rewrite Hl; done). rewrite Hl.
    eexists. split; [done|]. by repeat apply List.Forall_cons.
Qed.

Lemma scan_url_trace (web : pystr -> Page) (run_listings : list Listing)
    (url : pystr) (w : world) :
  exists evs,
    events (scan_url web run_listings url w).2 = events w ++ Get url :: evs /\
    Forall passive evs.
Proof.
  unfold scan_url, bind. destruct (collect_trace web url w) as (evs & -> & Hp).
  destruct (page_listings (web url)) as [found|e]; [|by exists evs].
  exists (evs ++ [Print (UrlScanned url (length found))]). split.
  - cbn. by rewrite <- app_assoc.
  - apply Forall_app. split; [done|]. by apply Forall_singleton.
Qed.

Lemma scan_page_trace (web : pystr -> Page) (run_listings : list Listing)
    (page : Z) (w : world) :
  exists evs,
    events (scan_page web run_listings page w).2 =
      events w ++ Get (LISTING_URL_TEMPLATE page) :: evs /\
    Forall passive evs.
Proof.
  unfold scan_page, collect_free_listings_on_page, bind.
  destruct (collect_trace web (LISTING_URL_TEMPLATE page) w) as (evs & -> & Hp).
  destruct (page_listings (web (LISTING_URL_TEMPLATE page))) as [found|e];
    [|by exists evs].
  exists (evs ++ [Print (PageScanned page (length found))]). split.
  - cbn. by rewrite <- app_assoc.
  - apply Forall_app. split; [done|]. by apply Forall_singleton.
Qed.

(** A loop whose body requests one URL per element requests the URLs of
    the elements in order, up to the element at which it raises. *)
Lemma scan_loop_trace {A} (url_of : A -> pystr)
    (body : list Listing -> A -> M (list Listing)) (xs : list A) :
  (forall acc x w, exists evs,
     events (body acc x w).2 = events w ++ Get (url_of x) :: evs /\ Forall passive evs) ->
  forall acc w, exists evs,
    events (for_each xs acc body w).2 = events w ++ evs /\
    Forall browsing evs /\
    urls_got evs `prefix_of` (url_of <$> xs) /\
    (forall found, (for_each xs acc body w).1 = Ok found -> urls_got evs = url_of <$> xs).
Proof.
  intros Hbody. induction xs as [|x xs IH]; intros acc w.
  - exists []. cbn. rewrite app_nil_r. by repeat split.
  - cbn [for_each]. unfold bind. destruct (Hbody acc x w) as (evs & Hevs & Hp).
    destruct (body acc x w) as [[acc'|e] w1]; cbn [snd] in Hevs.
    + destruct (IH acc' w1) as (evs' & Hevs' & Hb & Hpre & Hall).
      exists (Get (url_of x) :: evs ++ evs'). split.
      { rewrite Hevs', Hevs, <- app_assoc. done. }
      split.
      { apply List.Forall_cons; [exact I|]. apply Forall_app.
        split; [by apply passive_browsing|done]. }
      unfold urls_got in *. cbn [omap list_omap fmap list_fmap].
      rewrite omap_app. fold (urls_got evs). rewrite (urls_got_passive evs Hp).
      cbn [app]. split; [by apply prefix_cons|].
      intros found Hf. by rewrite (Hall found Hf).
    + exists (Get (url_of x) :: evs). split; [done|]. split.
      { apply List.Forall_cons; [exact I|]. by apply passive_browsing. }
      unfold urls_got. cbn [omap list_omap fmap list_fmap].
      fold (urls_got evs). rewrite (urls_got_passive evs Hp).
      split; [|done]. apply prefix_cons, prefix_nil.
Qed.

Lemma main_scan_trace (web : pystr -> Page) (w : world) :
  exists evs,
    events (main_scan web w).2 = events w ++ evs /\
    Forall browsing evs /\
    urls_got evs `prefix_of` scanned_urls /\
    (forall found, (main_scan web w).1 = Ok found -> urls_got evs = scanned_urls).
Proof.
  unfold main_scan, scanned_urls, bind.
  destruct (scan_loop_trace LISTING_URL_TEMPLATE (scan_page web) PAGE_RANGE
              (scan_page_trace web) [] w) as (evs & Hevs & Hb & Hpre & Hall).
  destruct (for_each PAGE_RANGE [] (scan_page web) w) as [[found|e] w1];
    cbn [fst snd] in *.
  - destruct (scan_loop_trace id (scan_url web) STATIC_LISTING_URLS
                (scan_url_trace web) found w1) as (evs' & Hevs' & Hb' & Hpre' & Hall').
    rewrite list_fmap_id in Hpre', Hall'.
    exists (evs ++ evs'). split; [by rewrite Hevs', Hevs, <- app_assoc|].
    split; [by apply Forall_app|].
    unfold urls_got in *. rewrite omap_app, (Hall found eq_refl).
    split; [by apply prefix_app|]. intros found' Hf. by rewrite (Hall' found' Hf).
  - exists evs. split; [done|]. split; [done|]. split; [|done].
    by apply prefix_app_r.
Qed.

Lemma persist_and_notify_trace (environ : pystr -> option pystr)
    (smtp_failure : smtp_step -> bool)
    (message_rejected : EmailMessage -> bool) (entries new : list dict) (w : world) :
  writable (file w) = true ->
  exists r evs,
    persist_and_notify environ smtp_failure message_rejected entries new w =
      (r, {| file := Stored (JList (List.map JDict entries));
             browser := browser w;
             events := events w ++ WriteResults entries :: Print (NewEntries new) :: evs |}) /\
    Forall passive evs.
Proof.
  intros Hw.
  assert (emits_only (A:=unit) passive
            match new with
            | [] => print NoNewListings
            | _ :: _ => send_email_notification environ smtp_failure message_rejected new
            end) as Hn.
  { destruct new; [unfold print; by apply emits_only_emit|].
    apply send_email_notification_passive. }
  unfold persist_and_notify, bind. rewrite save_results_eq by done.
  unfold print at 1, emit at 1.
  match goal with |- context [ ?m ?w1 ] =>
    match m with match new with _ => _ end =>
      destruct (Hn w1) as (r & evs & -> & Hp) end end.
  exists r, evs. split; [|done]. unfold add_events. simpl. by rewrite <- !app_assoc.
Qed.

(** The events of the merge on a store that loads: one write of the
    results file, between passive events. *)
Lemma main_merge_trace (environ : pystr -> option pystr)
    (smtp_failure : smtp_step -> bool)
    (message_rejected : EmailMessage -> bool)
    (run_listings : list Listing) (w : world) :
  loadable (file w) = true ->
  exists entries before after,
    events (main_merge environ smtp_failure message_rejected run_listings w).2 =
      events w ++ before ++ WriteResults entries :: after /\
    file (main_merge environ smtp_failure message_rejected run_listings w).2 =
      Stored (JList (List.map JDict entries)) /\
    Forall passive before /\ Forall passive after.
Proof.
  intros Hf.
  destruct (load_existing_results_passive w Hf) as (evs & Hload & Hp).
  destruct (spec_load (file w)) as [stored known].
  rewrite (main_merge_eq _ _ _ _ _ _ _ _ Hload).
  set (new := to_dict <$> spec_new_listings known run_listings).
  destruct (persist_and_notify_trace environ smtp_failure message_rejected
              (stored ++ new) new (add_events w evs) (loadable_writable _ Hf))
    as (r & evs' & -> & Hp').
  exists (stored ++ new), evs, (Print (NewEntries new) :: evs').
  cbn [snd events file add_events]. split; [by rewrite <- app_assoc|].
  split; [done|]. split; [done|]. by apply List.Forall_cons.
Qed.

(** On a store that does not load the merge ends with the exception of
    the load, the world as it was. *)
Lemma main_merge_raises (environ : pystr -> option pystr)
    (smtp_failure : smtp_step -> bool)
    (message_rejected : EmailMessage -> bool)
    (run_listings : list Listing) (w : world) :
  loadable (file w) = false ->
  exists e, main_merge environ smtp_failure message_rejected run_listings w = (Raise e, w).
Proof.
  intros Hf. destruct (load_existing_results_raises w Hf) as (e & Hload & _).
  exists e. unfold main_merge, bind. by rewrite Hload.
Qed.

(** The merge requests no page and does not close the browser. *)
Lemma main_merge_events (environ : pystr -> option pystr)
    (smtp_failure : smtp_step -> bool)
    (message_rejected : EmailMessage -> bool)
    (run_listings : list Listing) (w : world) :
  exists evs,
    events (main_merge environ smtp_failure message_rejected run_listings w).2 =
      events w ++ evs /\
    urls_got evs = [] /\ (Quit ∉ evs).
Proof.
  destruct (loadable (file w)) eqn:Hf.
  - destruct (main_merge_trace environ smtp_failure message_rejected run_listings w Hf)
      as (entries & before & after & Hevs & _ & Hp & Hp').
    exists (before ++ WriteResults entries :: after). split; [done|]. split.
    + unfold urls_got. rewrite omap_app. cbn [omap list_omap].
      fold (urls_got before). fold (urls_got after).
      by rewrite (urls_got_passive before), (urls_got_passive after).
    + apply passive_browsing, results_written_browsing in Hp as [_ Hq1].
      apply passive_browsing, results_written_browsing in Hp' as [_ Hq2].
      rewrite elem_of_app, elem_of_cons. naive_solver.
  - destruct (main_merge_raises environ smtp_failure message_rejected run_listings w Hf)
      as (e & ->).
    exists []. cbn [snd]. rewrite app_nil_r. split; [done|]. split; [done|].
    apply not_elem_of_nil.
Qed.

(** X16.  [main] closes the browser exactly once, as the last thing it
    does, whether the run completes or an exception ends it. *)
Theorem browser_is_closed_last (web : pystr -> Page) (environ : pystr -> option pystr)
    (smtp_failure : smtp_step -> bool)
    (message_rejected : EmailMessage -> bool) (w : world) :
  exists evs,
    events (main web environ smtp_failure message_rejected w).2 =
      events w ++ evs ++ [Quit] /\
    Quit ∉ evs.
Proof.
  unfold main, try_finally, bind.
  destruct (main_scan_trace web w) as (evs & Hevs & Hb & _).
  destruct (main_scan web w) as [[run_listings|e] w1]; cbn [snd] in Hevs.
  - destruct (main_merge_events environ smtp_failure message_rejected run_listings w1)
      as (evs' & Hevs' & _ & Hq').
    destruct (main_merge environ smtp_failure message_rejected run_listings w1)
      as [r w2]. cbn [snd] in *.
    exists (evs ++ evs'). split.
    + unfold emit. cbn. rewrite Hevs', Hevs. by rewrite <- !app_assoc.
    + apply results_written_browsing in Hb as [_ Hq].
      rewrite elem_of_app. naive_solver.
  - exists evs. split; [unfold emit; cbn; by rewrite Hevs, <- app_assoc|].
    by apply results_written_browsing in Hb as [_ Hq].
Qed.


(** X18.  [main] requests the URLs of the run in scanning order, each at
    most once and without retry: the URLs requested are a prefix of
    the ten shop pages followed by the three static URLs, and all of
    them when the scan runs to its end. *)
Theorem urls_are_requested_once_in_order (web : pystr -> Page)
    (environ : pystr -> option pystr) (smtp_failure : smtp_step -> bool)
    (message_rejected : EmailMessage -> bool) (w : world) :
  exists evs,
    events (main web environ smtp_failure message_rejected w).2 = events w ++ evs /\
    urls_got evs `prefix_of` scanned_urls /\
    NoDup (urls_got evs) /\
    (forall found, (main_scan web w).1 = Ok found -> urls_got evs = scanned_urls).
Proof.
  assert (NoDup scanned_urls) as Hnd.
  { apply (bool_decide_unpack _). vm_compute. exact I. }
  assert (forall evs,
            urls_got evs `prefix_of` scanned_urls -> NoDup (urls_got evs)) as Hpre.
  { intros evs [rest Hrest]. rewrite Hrest in Hnd. by apply NoDup_app in Hnd as [? _]. }
  unfold main, try_finally, bind.
  destruct (main_scan_trace web w) as (evs & Hevs & _ & Hp & Hall).
  destruct (main_scan web w) as [[run_listings|e] w1]; cbn [fst snd] in *.
  - destruct (main_merge_events environ smtp_failure message_rejected run_listings w1)
      as (evs' & Hevs' & Hg & _).
    destruct (main_merge environ smtp_failure message_rejected run_listings w1)
      as [r w2]. cbn [snd] in *.
    exists (evs ++ evs' ++ [Quit]).
    assert (urls_got (evs ++ evs' ++ [Quit]) = urls_got evs) as ->.
    { unfold urls_got in *. rewrite !omap_app, Hg. cbn. by rewrite app_nil_r. }
    split; [|by auto].
    unfold emit. cbn. rewrite Hevs', Hevs. by rewrite <- !app_assoc.
  - exists (evs ++ [Quit]).
    assert (urls_got (evs ++ [Quit]) = urls_got evs) as ->.
    { unfold urls_got. rewrite omap_app. cbn. by rewrite app_nil_r. }
    split; [|by auto].
    unfold emit. cbn. by rewrite Hevs, <- app_assoc.
Qed.

(** ** Witnesses for the price rule and the skipped navigation failure *)

Lemma hidden_price_is_authoritative_witness :
  exists price_text w1,
    _read_price_value
      (Example.tile (Some (py " 1,200.00 ")) (Some (EURO ++ py "0.00")) (py "Guitar")
         (Some Example.A_URL))
      (Example.start Missing) =
      (Ok (price_text, Some (Prim2SF 1200%float)), w1).
Proof.
  apply (hidden_price_is_authoritative
           (Example.tile (Some (py " 1,200.00 ")) (Some (EURO ++ py "0.00")) (py "Guitar")
              (Some Example.A_URL))
           (Example.shown (py " 1,200.00 ")) (Prim2SF 1200%float) (Example.start Missing));
    vm_compute; reflexivity.
Defined.

Lemma visible_price_is_last_token_witness :
  let shown_price := EURO ++ py "1,200.00 " ++ EURO ++ py "0.00" in
  exists w1,
    _read_price_value
      (Example.tile None (Some shown_price) (py "Guitar") (Some Example.A_URL))
      (Example.start Missing) =
      (Ok (Some (strip (text (Example.shown shown_price))), Some (S754_zero false)), w1).
Proof.
  intros shown_price.
  apply (visible_price_is_last_token
           (Example.tile None (Some shown_price) (py "Guitar") (Some Example.A_URL))
           (Example.shown shown_price) (py "0.00") (S754_zero false)
           (Example.start Missing));
    vm_compute; reflexivity.
Defined.

Lemma tile_without_price_text_is_skipped_witness :
  exists w1,
    extract_listing_info
      (Example.tile (Some (py "  ")) (Some (EURO ++ py " ")) (py "Guitar")
         (Some Example.A_URL))
      (Example.start Missing) = (Ok None, w1).
Proof.
  apply (tile_without_price_text_is_skipped
           (Example.tile (Some (py "  ")) (Some (EURO ++ py " ")) (py "Guitar")
              (Some Example.A_URL))
           (Example.start Missing));
    vm_compute; reflexivity.
Defined.

Lemma navigation_failure_is_skipped_witness :
  let slow : Page :=
    {| load := LoadTimeout; listing_container := false; initial_height := 0;
       growth := []; products := [] |} in
  let web := fun _ : pystr => slow in
  let url := LISTING_URL_TEMPLATE 1 in
  collect_free_listings_on_url web url (Example.start Missing) =
    (Ok [], visited web url (Example.start Missing)
              [Print (TimedOutLoading url); WindowStop]).
Proof.
  intros slow web url.
  destruct (navigation_failure_is_skipped web url (Example.start Missing)) as [Hrun _];
    [discriminate|].
  exact Hrun.
Defined.
